(** * Match registry, relayed-match routing and storage queries of the realtime server

    A shallow embedding of [server/match_registry.go],
    [server/pipeline_match.go], the queries of [server/core_storage.go] and the
    API's [ListStorageObjects].  Collaborators whose implementation is not part
    of these files (the presence tracker, the match handler's mailbox, the
    wire messages, the database) are modelled next to the code that calls
    them; every call that crosses the tracker, mailbox or session interface is
    recorded in a trace, so that statements of the form "is not invoked" or
    "is not read" are statements about that trace.  Of the storage code, what
    is embedded is the text and the parameters handed to the database. *)

From Stdlib Require Import ZArith NArith Ascii String Lia DecimalString DecimalNat.
From stdpp Require Import gmap strings list fin_maps.
From Equations Require Import Equations.

(** ** UUIDs ([github.com/satori/go.uuid]) *)

Module uuid.

(** [type UUID [16]byte], read as a 128-bit big-endian number. *)
Abbreviation UUID := N.

Definition Nil : UUID := 0%N.

(** [u[i]], the [i]-th byte of the array. *)
Definition byte_at (u : UUID) (i : nat) : N :=
  N.land (N.shiftr u (8 * (15 - N.of_nat i))) 255.

Definition hextable : list ascii :=
  list_ascii_of_string "0123456789abcdef".

Definition hexdigit (n : N) : ascii :=
  nth (N.to_nat n) hextable "0"%char.

(** [hex.Encode] of one byte: high nibble, low nibble. *)
Definition hex_byte (b : N) : list ascii :=
  [hexdigit (N.shiftr b 4); hexdigit (N.land b 15)].

(** [hex.Encode(buf, u[from:from+len])]. *)
Definition hex_encode (u : UUID) (from len : nat) : list ascii :=
  flat_map (fun i => hex_byte (byte_at u i)) (seq from len).

Definition dash : ascii := "-"%char.

(** [func (u UUID) String() string]: the canonical
    xxxxxxxx-xxxx-xxxx-xxxx-xxxxxxxxxxxx form. *)
Definition String (u : UUID) : string :=
  string_of_list_ascii
    (hex_encode u 0 4 ++ dash :: hex_encode u 4 2 ++ dash ::
     hex_encode u 6 2 ++ dash :: hex_encode u 8 2 ++ dash ::
     hex_encode u 10 6).

End uuid.

Import uuid.

Arguments String : simpl never.

(** ** [strings.SplitN] with a one-character separator *)

(** Cuts [s] around the first occurrence of [sep]. *)
Fixpoint cut (sep : ascii) (s : string) : option (string * string) :=
  match s with
  | EmptyString => None
  | String.String c r =>
      if Ascii.eqb c sep then Some (EmptyString, r)
      else match cut sep r with
           | Some (a, b) => Some (String.String c a, b)
           | None => None
           end
  end.

(** [strings.SplitN(s, sep, n)] for [n >= 0]: at most [n] substrings, the last
    one being the unsplit remainder; [n = 0] gives the empty slice. *)
Fixpoint SplitN (s : string) (sep : ascii) (n : nat) : list string :=
  match n with
  | 0 => []
  | 1 => [s]
  | S n' =>
      match cut sep s with
      | None => [s]
      | Some (a, b) => a :: SplitN b sep n'
      end
  end.

Definition colon : ascii := ":"%char.

(** ** Presences and streams *)

Inductive StreamMode := StreamModeMatchRelayed | StreamModeMatchAuthoritative.

Record PresenceStream := {
  Mode : StreamMode;
  Subject : UUID;
  Descriptor : UUID;
  Label : string
}.

Record PresenceID := { Node : string; SessionID : UUID }.

Record PresenceMeta := { Format : N; Hidden : bool; Username : string }.

Record Presence := {
  ID : PresenceID;
  Stream : PresenceStream;
  UserID : UUID;
  Meta : PresenceMeta
}.

#[global] Instance StreamMode_eq_dec : EqDecision StreamMode.
Proof. solve_decision. Defined.
#[global] Instance PresenceStream_eq_dec : EqDecision PresenceStream.
Proof. solve_decision. Defined.
#[global] Instance PresenceID_eq_dec : EqDecision PresenceID.
Proof. solve_decision. Defined.
#[global] Instance PresenceMeta_eq_dec : EqDecision PresenceMeta.
Proof. solve_decision. Defined.
#[global] Instance Presence_eq_dec : EqDecision Presence.
Proof. solve_decision. Defined.

(** The pair the router compares: [p.ID.SessionID] and [p.UserID]. *)
Definition presence_key (p : Presence) : UUID * UUID :=
  (SessionID (ID p), UserID p).

(** ** Wire messages ([rtapi]), restricted to the fields the handlers use *)

Inductive ErrorCode :=
  Error_BAD_INPUT | Error_MATCH_NOT_FOUND | Error_MATCH_JOIN_REJECTED.

Record StreamPresence := {
  sp_UserId : string;
  sp_SessionId : string;
  sp_Username : string
}.

Record Match := {
  m_MatchId : string;
  m_Presences : list StreamPresence;
  m_Self : StreamPresence
}.

Record Error := { e_Code : ErrorCode; e_Message : string }.

(** The [Id] oneof of [MatchJoin]; a missing value is Go's [nil]. *)
Inductive MatchJoinId :=
| MatchJoin_MatchId (match_id : string)
| MatchJoin_Token (token : string).

Record MatchJoin := { mj_Id : option MatchJoinId }.

Record MatchLeave := { ml_MatchId : string }.

Record MatchDataSend := {
  mds_MatchId : string;
  mds_OpCode : Z;
  mds_Data : list N;
  mds_Presences : list StreamPresence
}.

Record MatchData := {
  md_MatchId : string;
  md_Presence : StreamPresence;
  md_OpCode : Z;
  md_Data : list N
}.

(** The [Message] oneof of an envelope. *)
Inductive EnvelopeMessage :=
| Envelope_Match (m : Match)
| Envelope_Error (e : Error)
| Envelope_MatchCreate
| Envelope_MatchJoin (m : MatchJoin)
| Envelope_MatchLeave (m : MatchLeave)
| Envelope_MatchDataSend (m : MatchDataSend)
| Envelope_MatchData (m : MatchData).

Record Envelope := { Cid : string; Message : option EnvelopeMessage }.

(** The generated getters: the payload when the oneof holds that case, and a
    nil pointer otherwise. *)
Definition GetMatchJoin (e : Envelope) : option MatchJoin :=
  match Message e with Some (Envelope_MatchJoin m) => Some m | _ => None end.

Definition GetMatchLeave (e : Envelope) : option MatchLeave :=
  match Message e with Some (Envelope_MatchLeave m) => Some m | _ => None end.

Definition GetMatchDataSend (e : Envelope) : option MatchDataSend :=
  match Message e with Some (Envelope_MatchDataSend m) => Some m | _ => None end.

(** ** The match handler's mailbox *)

Record MatchDataMessage := {
  mdm_UserID : UUID;
  mdm_SessionID : UUID;
  mdm_Username : string;
  mdm_Node : string;
  mdm_OpCode : Z;
  mdm_Data : list N
}.

Inductive MailboxMessage :=
| JoinAttempt (userID sessionID : UUID) (username fromNode : string)
| Leave_msg (presences : list Presence)
| Data_msg (m : MatchDataMessage).

(** Modelled from the spec: the match handler ([MatchHandler], with its
    [QueueCall] and [QueueData]) is not part of the two files.  The spec gives
    it one bounded FIFO mailbox with a non-blocking enqueue that reports
    "queue full", and enqueues that fail fast once the actor is closed. *)
Record MatchHandler := {
  mh_ID : UUID;
  mh_Node : string;
  mh_capacity : nat;
  mh_mailbox : list MailboxMessage;
  mh_closed : bool
}.

Definition mailbox_full (mh : MatchHandler) : bool :=
  bool_decide (mh_capacity mh ≤ length (mh_mailbox mh))%nat.

Definition enqueue (mh : MatchHandler) (m : MailboxMessage) : bool * MatchHandler :=
  if mh_closed mh || mailbox_full mh then (false, mh)
  else (true, {| mh_ID := mh_ID mh; mh_Node := mh_Node mh;
                 mh_capacity := mh_capacity mh;
                 mh_mailbox := mh_mailbox mh ++ [m];
                 mh_closed := mh_closed mh |}).

Definition QueueCall (mh : MatchHandler) (m : MailboxMessage) : bool * MatchHandler :=
  enqueue mh m.

Definition QueueData (mh : MatchHandler) (m : MatchDataMessage) : MatchHandler :=
  snd (enqueue mh (Data_msg m)).

(** ** The presence tracker *)

(** Modelled from the spec: the tracker ([Tracker], used through [p.tracker]
    and [r.tracker]) is not part of the two files.  The spec describes it as
    the store of which (user, session) pairs are members of which stream, with
    track, untrack, untrack-by-stream, list-by-stream, stream-exists (the
    stream has at least one presence) and a local lookup. *)
Record Tracker := { tr_name : string; tr_presences : list Presence }.

Definition same_presence (node : string) (sessionID : UUID)
    (stream : PresenceStream) (userID : UUID) (p : Presence) : bool :=
  bool_decide (ID p = {| Node := node; SessionID := sessionID |})
  && bool_decide (Stream p = stream) && bool_decide (UserID p = userID).

Definition on_stream (stream : PresenceStream) (p : Presence) : bool :=
  bool_decide (Stream p = stream).

Definition tr_ListByStream (t : Tracker) (stream : PresenceStream) : list Presence :=
  List.filter (on_stream stream) (tr_presences t).

Definition tr_StreamExists (t : Tracker) (stream : PresenceStream) : bool :=
  existsb (on_stream stream) (tr_presences t).

Definition tr_GetLocalBySessionIDStreamUserID (t : Tracker) (sessionID : UUID)
    (stream : PresenceStream) (userID : UUID) : option PresenceMeta :=
  option_map Meta
    (List.find (same_presence (tr_name t) sessionID stream userID) (tr_presences t)).

Definition tr_Track (t : Tracker) (sessionID : UUID) (stream : PresenceStream)
    (userID : UUID) (meta : PresenceMeta) : Tracker :=
  if existsb (same_presence (tr_name t) sessionID stream userID) (tr_presences t)
  then t
  else {| tr_name := tr_name t;
          tr_presences :=
            tr_presences t ++
            [{| ID := {| Node := tr_name t; SessionID := sessionID |};
                Stream := stream; UserID := userID; Meta := meta |}] |}.

Definition tr_Untrack (t : Tracker) (sessionID : UUID) (stream : PresenceStream)
    (userID : UUID) : Tracker :=
  {| tr_name := tr_name t;
     tr_presences :=
       List.filter (fun p => negb (same_presence (tr_name t) sessionID stream userID p))
         (tr_presences t) |}.

Definition tr_UntrackByStream (t : Tracker) (stream : PresenceStream) : Tracker :=
  {| tr_name := tr_name t;
     tr_presences := List.filter (fun p => negb (on_stream stream p)) (tr_presences t) |}.

(** ** The world the handlers run in *)

(** Every call that leaves the function under study. *)
Inductive Event :=
| ETrack (sessionID : UUID) (stream : PresenceStream) (userID : UUID) (meta : PresenceMeta)
| EUntrack (sessionID : UUID) (stream : PresenceStream) (userID : UUID)
| EUntrackByStream (stream : PresenceStream)
| EListByStream (stream : PresenceStream)
| EStreamExists (stream : PresenceStream)
| EGetLocal (sessionID : UUID) (stream : PresenceStream) (userID : UUID)
| ECallJoin (id : UUID) (node : string) (userID sessionID : UUID) (username fromNode : string)
| ECallSendData (id : UUID) (node : string) (userID sessionID : UUID)
    (username fromNode : string) (opCode : Z) (data : list N)
| ELock | EUnlock | ERLock | ERUnlock
| EQueueCall (id : UUID) (m : MailboxMessage) (accepted : bool)
| EQueueData (id : UUID) (m : MatchDataMessage)
| ENewTicker (d : Z)
| ETickerStop
| ESessionSend (sessionID : UUID) (e : Envelope)
| ESendToPresences (ps : list Presence) (e : Envelope).

(** [LocalMatchRegistry]: the fields the operations read or write. *)
Record LocalMatchRegistry := {
  node : string;
  matches : gmap N MatchHandler
}.

Record World := {
  p_node : string;
  tracker : Tracker;
  matchRegistry : LocalMatchRegistry;
  trace : list Event
}.

Definition log (e : Event) (w : World) : World :=
  {| p_node := p_node w; tracker := tracker w;
     matchRegistry := matchRegistry w; trace := trace w ++ [e] |}.

Definition set_tracker (t : Tracker) (w : World) : World :=
  {| p_node := p_node w; tracker := t;
     matchRegistry := matchRegistry w; trace := trace w |}.

Definition set_matches (m : gmap N MatchHandler) (w : World) : World :=
  {| p_node := p_node w; tracker := tracker w;
     matchRegistry := {| node := node (matchRegistry w); matches := m |};
     trace := trace w |}.

(** The tracker's operations as the handlers call them. *)
Definition Track (w : World) sessionID stream userID meta : World :=
  set_tracker (tr_Track (tracker w) sessionID stream userID meta)
    (log (ETrack sessionID stream userID meta) w).

Definition Untrack (w : World) sessionID stream userID : World :=
  set_tracker (tr_Untrack (tracker w) sessionID stream userID)
    (log (EUntrack sessionID stream userID) w).

Definition UntrackByStream (w : World) stream : World :=
  set_tracker (tr_UntrackByStream (tracker w) stream) (log (EUntrackByStream stream) w).

Definition ListByStream (w : World) stream : list Presence * World :=
  (tr_ListByStream (tracker w) stream, log (EListByStream stream) w).

Definition StreamExists (w : World) stream : bool * World :=
  (tr_StreamExists (tracker w) stream, log (EStreamExists stream) w).

Definition GetLocalBySessionIDStreamUserID (w : World) sessionID stream userID
    : option PresenceMeta * World :=
  (tr_GetLocalBySessionIDStreamUserID (tracker w) sessionID stream userID,
   log (EGetLocal sessionID stream userID) w).

(** ** [match_registry.go] *)

(** [time.Second] in nanoseconds, the unit of [time.Duration]. *)
Definition Second : Z := 1000000000.

(** The limit of [Join]: [time.Second * 10]. *)
Definition joinTimeout : Z := Second * 10.

(** What the two channels of the [select] in [Join] do while the caller is
    blocked: the actor's answer reaches [resultCh] some time after the ticker
    was created, or never does. *)
Record Reply := { reply_after : Z; reply_value : bool }.

Inductive SelectCase := case_ticker | case_result (r : bool).

(** Go's [select] takes the case that becomes ready first; when both are ready
    at once the choice is the runtime's, given here by [tie]. *)
Definition select (timeout : Z) (reply : option Reply) (tie : bool) : SelectCase :=
  match reply with
  | None => case_ticker
  | Some rp =>
      if (reply_after rp <? timeout)%Z then case_result (reply_value rp)
      else if (timeout <? reply_after rp)%Z then case_ticker
      else if tie then case_result (reply_value rp) else case_ticker
  end.

(** [func (r *LocalMatchRegistry) NewMatch]: [id] is the identifier drawn by
    [uuid.NewV4()] and [made] the result of [NewMatchHandler]. *)
Definition NewMatch (w : World) (id : UUID) (made : option MatchHandler)
    : option MatchHandler * World :=
  match made with
  | None => (None, w)
  | Some mh =>
      let w := log ELock w in
      let w := set_matches (<[id := mh]> (matches (matchRegistry w))) w in
      let w := log EUnlock w in
      (Some mh, w)
  end.

Definition RemoveMatch (w : World) (id : UUID) (stream : PresenceStream) : World :=
  let w := log ELock w in
  let w := set_matches (delete id (matches (matchRegistry w))) w in
  let w := log EUnlock w in
  UntrackByStream w stream.

(** [reply] and [tie] say what the [select] will see.  The directory holds a
    pointer to the handler: queueing changes the handler, which the model
    writes back under the same identifier. *)
Definition Join (w : World) (id : UUID) (node_ : string) (userID sessionID : UUID)
    (username fromNode : string) (reply : option Reply) (tie : bool)
    : (bool * bool) * World :=
  if bool_decide (node_ ≠ node (matchRegistry w)) then ((false, false), w)
  else
    let w := log ERLock w in
    let found := matches (matchRegistry w) !! id in
    let w := log ERUnlock w in
    match found with
    | None => ((false, false), w)
    | Some mh =>
        let msg := JoinAttempt userID sessionID username fromNode in
        let '(queued, mh') := QueueCall mh msg in
        let w := set_matches (<[id := mh']> (matches (matchRegistry w))) w in
        let w := log (EQueueCall id msg queued) w in
        if negb queued then ((true, false), w)
        else
          let w := log (ENewTicker joinTimeout) w in
          match select joinTimeout reply tie with
          | case_ticker => ((true, false), log ETickerStop w)
          | case_result r => ((true, r), log ETickerStop w)
          end
    end.

Definition Leave (w : World) (id : UUID) (node_ : string) (presences : list Presence)
    : World :=
  if bool_decide (node_ ≠ node (matchRegistry w)) then w
  else
    let w := log ERLock w in
    let found := matches (matchRegistry w) !! id in
    let w := log ERUnlock w in
    match found with
    | None => w
    | Some mh =>
        let msg := Leave_msg presences in
        let '(queued, mh') := QueueCall mh msg in
        let w := set_matches (<[id := mh']> (matches (matchRegistry w))) w in
        log (EQueueCall id msg queued) w
    end.

Definition SendData (w : World) (id : UUID) (node_ : string) (userID sessionID : UUID)
    (username fromNode : string) (opCode : Z) (data : list N) : World :=
  if bool_decide (node_ ≠ node (matchRegistry w)) then w
  else
    let w := log ERLock w in
    let found := matches (matchRegistry w) !! id in
    let w := log ERUnlock w in
    match found with
    | None => w
    | Some mh =>
        let msg := {| mdm_UserID := userID; mdm_SessionID := sessionID;
                      mdm_Username := username; mdm_Node := node_;
                      mdm_OpCode := opCode; mdm_Data := data |} in
        let w := set_matches (<[id := QueueData mh msg]> (matches (matchRegistry w))) w in
        log (EQueueData id msg) w
    end.

(** ** [pipeline_match.go] *)

(** The part of the [session] interface the match handlers use. *)
Record session := {
  s_ID : UUID;
  s_UserID : UUID;
  s_Username : string;
  s_Format : N
}.

Definition Send (w : World) (s : session) (e : Envelope) : World :=
  log (ESessionSend (s_ID s) e) w.

Definition SendToPresences (w : World) (ps : list Presence) (e : Envelope) : World :=
  log (ESendToPresences ps e) w.

(** A handler either returns or stops in a run-time panic (here: a field read
    through a nil pointer). *)
Inductive Result := Returned (w : World) | Panicked (w : World).

Definition error_envelope (cid : string) (code : ErrorCode) (msg : string) : Envelope :=
  {| Cid := cid;
     Message := Some (Envelope_Error {| e_Code := code; e_Message := msg |}) |}.

Definition self_presence (s : session) (username : string) : StreamPresence :=
  {| sp_UserId := String (s_UserID s);
     sp_SessionId := String (s_ID s);
     sp_Username := username |}.

Definition stream_presence (p : Presence) : StreamPresence :=
  {| sp_UserId := String (UserID p);
     sp_SessionId := String (SessionID (ID p));
     sp_Username := Username (Meta p) |}.

Definition session_meta (s : session) : PresenceMeta :=
  {| Format := s_Format s; Hidden := false; Username := s_Username s |}.

(** [matchID] is the identifier drawn by [uuid.NewV4()]. *)
Definition matchCreate (w : World) (s : session) (envelope : Envelope) (matchID : UUID)
    : World :=
  let username := s_Username s in
  let w := Track w (s_ID s)
             {| Mode := StreamModeMatchRelayed; Subject := matchID;
                Descriptor := Nil; Label := ""%string |}
             (s_UserID s) (session_meta s) in
  let self := self_presence s username in
  Send w s {| Cid := Cid envelope;
              Message := Some (Envelope_Match
                {| m_MatchId := (String matchID ++ ":")%string;
                   m_Presences := [self];
                   m_Self := self |}) |}.

Record matchDataFilter := { userID : UUID; sessionID : UUID }.

(** [ps[i] = ps[len(ps)-1]; ps = ps[:len(ps)-1]] *)
Definition swap_remove {A} (l : list A) (i : nat) : list A :=
  match last l with
  | Some x => take (length l - 1) (<[i := x]> l)
  | None => l
  end.

Definition is_sender (s : session) (p : Presence) : bool :=
  bool_decide (SessionID (ID p) = s_ID s) && bool_decide (UserID p = s_UserID s).

Definition filter_matches (p : Presence) (f : matchDataFilter) : bool :=
  bool_decide (SessionID (ID p) = sessionID f) && bool_decide (UserID p = userID f).

(** The inner loop over [filters]: the first index whose entry names [p]. *)
Fixpoint find_filter (p : Presence) (filters : list matchDataFilter) (j : nat)
    : option nat :=
  match filters with
  | [] => None
  | f :: rest => if filter_matches p f then Some j else find_filter p rest (S j)
  end.

(** Keeps the equation of a case analysis for the termination proof. *)
Definition inspect {A} (x : A) : {y : A | x = y} := exist _ x eq_refl.

(** The scan of lines 257-289, from index [i] on.  [filters] is [None] for a
    nil slice; a slice emptied by the scan stays non-nil. *)
Equations? relay_loop (s : session) (ps : list Presence)
    (filters : option (list matchDataFilter)) (senderFound : bool) (i : nat)
    : list Presence * bool by wf (length ps - i) lt :=
  relay_loop s ps filters senderFound i with inspect (ps !! i) := {
    | exist _ None _ => (ps, senderFound)
    | exist _ (Some p) Hp =>
        if is_sender s p then
          match filters with
          | None => (swap_remove ps i, true)
          | Some _ => relay_loop s (swap_remove ps i) filters true i
          end
        else
          match filters with
          | None => relay_loop s ps filters senderFound (S i)
          | Some fs =>
              match find_filter p fs 0 with
              | Some j => relay_loop s ps (Some (swap_remove fs j)) senderFound (S i)
              | None => relay_loop s (swap_remove ps i) filters senderFound i
              end
          end
    }.
Proof.
  all: apply lookup_lt_Some in Hp.
  all: try (unfold swap_remove; destruct (last ps) eqn:Hlast;
            [rewrite length_take, length_insert
            |apply last_None in Hlast; subst ps; simpl in Hp]).
  all: lia.
Qed.

Section Handlers.

(** [uuid.FromString], the parser of the UUID library. *)
Variable FromString : string → option UUID.

(** Lines 102-173 of [matchJoin]: what happens once the identifier has been
    parsed into [matchID] and [node]. *)
Definition matchJoin_reply (w : World) (s : session) (envelope : Envelope)
    (matchIDString : string) (stream : PresenceStream) (meta : PresenceMeta) : World :=
  let '(ps, w) := ListByStream w stream in
  let presences := map stream_presence ps in
  let self := self_presence s (Username meta) in
  Send w s {| Cid := Cid envelope;
              Message := Some (Envelope_Match
                {| m_MatchId := matchIDString;
                   m_Presences := presences;
                   m_Self := self |}) |}.

Definition matchJoin_body (w : World) (s : session) (envelope : Envelope)
    (matchIDString : string) (matchID : UUID) (node_ : string)
    (reply : option Reply) (tie : bool) : World :=
  let mode := if bool_decide (node_ ≠ ""%string)
              then StreamModeMatchAuthoritative else StreamModeMatchRelayed in
  let stream := {| Mode := mode; Subject := matchID;
                   Descriptor := Nil; Label := node_ |} in
  let '(missing, w) :=
    match mode with
    | StreamModeMatchRelayed =>
        let '(present, w) := StreamExists w stream in (negb present, w)
    | StreamModeMatchAuthoritative => (false, w)
    end in
  if missing then
    Send w s (error_envelope (Cid envelope) Error_MATCH_NOT_FOUND "Match not found")
  else
    let '(meta, w) := GetLocalBySessionIDStreamUserID w (s_ID s) stream (s_UserID s) in
    match meta with
    | Some meta => matchJoin_reply w s envelope matchIDString stream meta
    | None =>
        let username := s_Username s in
        let '((found, allow), w) :=
          match mode with
          | StreamModeMatchAuthoritative =>
              Join (log (ECallJoin matchID node_ (s_UserID s) (s_ID s) username (p_node w)) w)
                matchID node_ (s_UserID s) (s_ID s) username (p_node w) reply tie
          | StreamModeMatchRelayed => ((true, true), w)
          end in
        if negb found then
          Send w s (error_envelope (Cid envelope) Error_MATCH_NOT_FOUND "Match join rejected")
        else if negb allow then
          Send w s (error_envelope (Cid envelope) Error_MATCH_JOIN_REJECTED "Match join rejected")
        else
          let m := session_meta s in
          let w := Track w (s_ID s) stream (s_UserID s) m in
          matchJoin_reply w s envelope matchIDString stream m
    end.

Definition matchJoin (w : World) (s : session) (envelope : Envelope)
    (reply : option Reply) (tie : bool) : Result :=
  match GetMatchJoin envelope with
  | None => Panicked w
  | Some m =>
      match mj_Id m with
      | Some (MatchJoin_MatchId id) =>
          let matchIDString := id in
          match GetMatchLeave envelope with
          | None => Panicked w
          | Some leave =>
              match SplitN (ml_MatchId leave) colon 2 with
              | [c0; c1] =>
                  match FromString c0 with
                  | None =>
                      Returned (Send w s (error_envelope (Cid envelope)
                                            Error_BAD_INPUT "Invalid match ID"))
                  | Some matchID =>
                      Returned (matchJoin_body w s envelope matchIDString matchID c1
                                  reply tie)
                  end
              | _ =>
                  Returned (Send w s (error_envelope (Cid envelope)
                                        Error_BAD_INPUT "Invalid match ID"))
              end
          end
      | Some (MatchJoin_Token _) =>
          Returned (Send w s (error_envelope (Cid envelope) Error_BAD_INPUT
                                "Token-based match join not available"))
      | None =>
          Returned (Send w s (error_envelope (Cid envelope) Error_BAD_INPUT
                                "No match ID or token found"))
      end
  end.

(** Lines 195-206 of [matchLeave]. *)
Definition matchLeave_body (w : World) (s : session) (envelope : Envelope)
    (matchID : UUID) (label : string) : World :=
  let mode := if bool_decide (label ≠ ""%string)
              then StreamModeMatchAuthoritative else StreamModeMatchRelayed in
  let stream := {| Mode := mode; Subject := matchID;
                   Descriptor := Nil; Label := label |} in
  let w := Untrack w (s_ID s) stream (s_UserID s) in
  Send w s {| Cid := Cid envelope; Message := None |}.

Definition matchLeave (w : World) (s : session) (envelope : Envelope) : Result :=
  match GetMatchLeave envelope with
  | None => Panicked w
  | Some leave =>
      match SplitN (ml_MatchId leave) colon 2 with
      | [c0; c1] =>
          match FromString c0 with
          | None =>
              Returned (Send w s (error_envelope (Cid envelope)
                                    Error_BAD_INPUT "Invalid match ID"))
          | Some matchID => Returned (matchLeave_body w s envelope matchID c1)
          end
      | _ =>
          Returned (Send w s (error_envelope (Cid envelope)
                                Error_BAD_INPUT "Invalid match ID"))
      end
  end.

(** Lines 236-247: [None] stands for the early [return]. *)
Fixpoint parse_filters (presences : list StreamPresence)
    : option (list matchDataFilter) :=
  match presences with
  | [] => Some []
  | sp :: rest =>
      match FromString (sp_UserId sp) with
      | None => None
      | Some uid =>
          match FromString (sp_SessionId sp) with
          | None => None
          | Some sid =>
              match parse_filters rest with
              | None => None
              | Some fs => Some ({| userID := uid; sessionID := sid |} :: fs)
              end
          end
      end
  end.

(** Lines 250-312: the routing of a relayed data message. *)
Definition matchDataSend_relay (w : World) (s : session) (incoming : MatchDataSend)
    (filters : option (list matchDataFilter)) (matchID : UUID) : World :=
  let stream := {| Mode := StreamModeMatchRelayed; Subject := matchID;
                   Descriptor := Nil; Label := ""%string |} in
  let '(ps, w) := ListByStream w stream in
  if bool_decide (length ps = 0) then w
  else
    let '(ps, senderFound) := relay_loop s ps filters false 0 in
    if negb senderFound then w
    else if bool_decide (length ps = 0) then w
    else
      let outgoing :=
        {| Cid := ""%string;
           Message := Some (Envelope_MatchData
             {| md_MatchId := mds_MatchId incoming;
                md_Presence := self_presence s (s_Username s);
                md_OpCode := mds_OpCode incoming;
                md_Data := mds_Data incoming |}) |} in
      SendToPresences w ps outgoing.

(** Lines 233-312: the relayed path, filters included. *)
Definition matchDataSend_relayed (w : World) (s : session) (incoming : MatchDataSend)
    (matchID : UUID) : World :=
  if bool_decide (length (mds_Presences incoming) ≠ 0) then
    match parse_filters (mds_Presences incoming) with
    | None => w
    | Some fs => matchDataSend_relay w s incoming (Some fs) matchID
    end
  else matchDataSend_relay w s incoming None matchID.

(** Lines 222-231: the authoritative path. *)
Definition matchDataSend_authoritative (w : World) (s : session)
    (incoming : option MatchDataSend) (matchID : UUID) (label : string) : Result :=
  let '(meta, w) :=
    GetLocalBySessionIDStreamUserID w (s_ID s)
      {| Mode := StreamModeMatchAuthoritative; Subject := matchID;
         Descriptor := Nil; Label := label |} (s_UserID s) in
  match meta with
  | None => Returned w
  | Some _ =>
      match incoming with
      | None => Panicked w
      | Some inc =>
          let w := log (ECallSendData matchID label (s_UserID s) (s_ID s)
                          (s_Username s) (p_node w) (mds_OpCode inc) (mds_Data inc)) w in
          Returned (SendData w matchID label (s_UserID s) (s_ID s) (s_Username s)
                      (p_node w) (mds_OpCode inc) (mds_Data inc))
      end
  end.

(** Lines 222-312, with [incoming] as line 210 left it: nil unless the
    envelope carries a data-send. *)
Definition matchDataSend_body (w : World) (s : session)
    (incoming : option MatchDataSend) (matchID : UUID) (label : string) : Result :=
  if bool_decide (label ≠ ""%string) then
    matchDataSend_authoritative w s incoming matchID label
  else
    match incoming with
    | None => Panicked w
    | Some inc => Returned (matchDataSend_relayed w s inc matchID)
    end.

Definition matchDataSend (w : World) (s : session) (envelope : Envelope) : Result :=
  let incoming := GetMatchDataSend envelope in
  match GetMatchLeave envelope with
  | None => Panicked w
  | Some leave =>
      match SplitN (ml_MatchId leave) colon 2 with
      | [c0; c1] =>
          match FromString c0 with
          | None => Returned w
          | Some matchID => matchDataSend_body w s incoming matchID c1
          end
      | _ => Returned w
      end
  end.

End Handlers.

(** ** Sample values *)

Definition alice : session :=
  {| s_ID := 1; s_UserID := 11; s_Username := "alice"; s_Format := 0 |}.

Definition dave : session :=
  {| s_ID := 4; s_UserID := 14; s_Username := "dave"; s_Format := 0 |}.

Definition relayed_stream (matchID : UUID) : PresenceStream :=
  {| Mode := StreamModeMatchRelayed; Subject := matchID;
     Descriptor := Nil; Label := ""%string |}.

Definition authoritative_stream (matchID : UUID) (label : string) : PresenceStream :=
  {| Mode := StreamModeMatchAuthoritative; Subject := matchID;
     Descriptor := Nil; Label := label |}.

Definition member (stream : PresenceStream) (sid uid : UUID) (name : string) : Presence :=
  {| ID := {| Node := "node1"; SessionID := sid |};
     Stream := stream; UserID := uid;
     Meta := {| Format := 0; Hidden := false; Username := name |} |}.

Definition sample_handler : MatchHandler :=
  {| mh_ID := 7; mh_Node := "node1"; mh_capacity := 2;
     mh_mailbox := []; mh_closed := false |}.

(** One node, one registered authoritative match (7) with [alice] on its
    stream, and one relayed match (9) with three members. *)
Definition sample_world : World :=
  {| p_node := "node1";
     tracker :=
       {| tr_name := "node1";
          tr_presences :=
            [member (relayed_stream 9) 1 11 "alice";
             member (relayed_stream 9) 2 12 "bob";
             member (relayed_stream 9) 3 13 "carol";
             member (authoritative_stream 7 "node1") 1 11 "alice"] |};
     matchRegistry := {| node := "node1"; matches := {[ 7%N := sample_handler ]} |};
     trace := [] |}.

Definition sample_data : MatchDataSend :=
  {| mds_MatchId := "00000000-0000-0000-0000-000000000009:";
     mds_OpCode := 1; mds_Data := [104; 105]%N; mds_Presences := [] |}.

(** ** The recipients of a relayed message, in the spec's words *)




(** Some entry of [fs] names [p]. *)
Definition named (fs : list matchDataFilter) (p : Presence) : bool :=
  existsb (filter_matches p) fs.



(** ** Reading traces *)



Definition is_session_send (e : Event) : bool :=
  match e with ESessionSend _ _ => true | _ => false end.

(** What a run from [w] to [w'] added to the trace. *)
Definition new_events (w w' : World) : list Event :=
  drop (length (trace w)) (trace w').

(** The stream a parsed identifier addresses (lines 102-108 and 195-202). *)
Definition stream_of (matchID : UUID) (label : string) : PresenceStream :=
  {| Mode := if bool_decide (label ≠ ""%string)
             then StreamModeMatchAuthoritative else StreamModeMatchRelayed;
     Subject := matchID; Descriptor := Nil; Label := label |}.

Definition match_envelope (cid matchIDString : string)
    (presences : list StreamPresence) (self : StreamPresence) : Envelope :=
  {| Cid := cid;
     Message := Some (Envelope_Match
       {| m_MatchId := matchIDString; m_Presences := presences; m_Self := self |}) |}.

Definition bob_filter : matchDataFilter := {| userID := 12; sessionID := 2 |}.

Definition dave_filter : matchDataFilter := {| userID := 14; sessionID := 4 |}.

(** The keys of the presences handed to the router, in call order. *)
Definition routed (w : World) : list (list (UUID * UUID)) :=
  flat_map (λ e, match e with
                 | ESendToPresences ps _ => [map presence_key ps]
                 | _ => []
                 end) (trace w).

Definition join_envelope (id : string) : Envelope :=
  {| Cid := "1"; Message := Some (Envelope_MatchJoin {| mj_Id := Some (MatchJoin_MatchId id) |}) |}.

(** A parser of the canonical 36-character form, standing for
    [uuid.FromString] at the sample inputs. *)
Definition hex_value (c : ascii) : option N :=
  let n := N_of_ascii c in
  if (48 <=? n)%N && (n <=? 57)%N then Some (n - 48)%N
  else if (97 <=? n)%N && (n <=? 102)%N then Some (n - 87)%N
  else if (65 <=? n)%N && (n <=? 70)%N then Some (n - 55)%N
  else None.

Fixpoint parse_canonical (pos : nat) (cs : list ascii) (acc : N) : option N :=
  match cs with
  | [] => if bool_decide (pos = 36) then Some acc else None
  | c :: rest =>
      if bool_decide (pos = 8 ∨ pos = 13 ∨ pos = 18 ∨ pos = 23) then
        if Ascii.eqb c dash then parse_canonical (S pos) rest acc else None
      else
        match hex_value c with
        | Some v => parse_canonical (S pos) rest (acc * 16 + v)%N
        | None => None
        end
  end.

Definition canonical_FromString (s : string) : option UUID :=
  parse_canonical 0 (list_ascii_of_string s) 0.

Definition leave_envelope (id : string) : Envelope :=
  {| Cid := "1"; Message := Some (Envelope_MatchLeave {| ml_MatchId := id |}) |}.

Definition data_envelope (m : MatchDataSend) : Envelope :=
  {| Cid := "1"; Message := Some (Envelope_MatchDataSend m) |}.



(** ** The rest of [match_registry.go] *)

Record MatchPresence := {
  mp_Node : string;
  mp_UserId : UUID;
  mp_SessionId : UUID;
  mp_Username : string
}.

(** [func (r *LocalMatchRegistry) Kick]: presences of other nodes are skipped. *)
Fixpoint Kick (w : World) (stream : PresenceStream) (presences : list MatchPresence)
    : World :=
  match presences with
  | [] => w
  | presence :: rest =>
      if bool_decide (mp_Node presence ≠ node (matchRegistry w)) then Kick w stream rest
      else Kick (Untrack w (mp_SessionId presence) stream (mp_UserId presence)) stream rest
  end.

(** Modelled from the spec: [MatchHandler.Close] is not part of the two files;
    the spec has it end the actor, after which an enqueue fails fast. *)
Definition Close (mh : MatchHandler) : MatchHandler :=
  {| mh_ID := mh_ID mh; mh_Node := mh_Node mh; mh_capacity := mh_capacity mh;
     mh_mailbox := mh_mailbox mh; mh_closed := true |}.

(** [func (r *LocalMatchRegistry) Stop]: the loop closes each handler and
    deletes its entry.  Go ranges over the map in no fixed order; the model
    takes the order of [map_to_list].  The closed handlers leave the directory
    in the same step, so they are returned beside the world. *)
Definition Stop (w : World) : list MatchHandler * World :=
  let w := log ELock w in
  let entries := map_to_list (matches (matchRegistry w)) in
  let closed := map (λ e, Close (snd e)) entries in
  let m := foldl (λ m e, delete (fst e) m) (matches (matchRegistry w)) entries in
  (closed, log EUnlock (set_matches m w)).

Definition is_queue_event (e : Event) : bool :=
  match e with EQueueCall _ _ _ | EQueueData _ _ => true | _ => false end.

Definition local_presence (w : World) (p : MatchPresence) : bool :=
  bool_decide (mp_Node p = node (matchRegistry w)).

(** What a registry call on [id] can have done to the world. *)
Definition touches_only (id : UUID) (w w' : World) : Prop :=
  tracker w' = tracker w
  ∧ p_node w' = p_node w
  ∧ node (matchRegistry w') = node (matchRegistry w)
  ∧ dom (matches (matchRegistry w')) = dom (matches (matchRegistry w))
  ∧ (∀ id', id' ≠ id → matches (matchRegistry w') !! id' = matches (matchRegistry w) !! id')
  ∧ (∀ mh, matches (matchRegistry w) !! id = Some mh →
       ∃ mh', matches (matchRegistry w') !! id = Some mh'
              ∧ (mh' = mh ∨ ∃ m, mh_mailbox mh' = mh_mailbox mh ++ [m]
                                  ∧ length (mh_mailbox mh) < mh_capacity mh)).

Definition is_delivery (e : Event) : bool :=
  match e with
  | ESendToPresences _ _ | ECallSendData _ _ _ _ _ _ _ _ => true
  | _ => false
  end.

Definition is_Untrack (e : Event) : bool :=
  match e with EUntrack _ _ _ => true | _ => false end.

Definition world_of (r : Result) : World :=
  match r with Returned w | Panicked w => w end.

Definition bad_input (e : Envelope) : bool :=
  match Message e with
  | Some (Envelope_Error err) =>
      match e_Code err with Error_BAD_INPUT => true | _ => false end
  | _ => false
  end.


(** A filter entry of the message and the filter it parses to. *)
Definition parses_to (FromString : string → option UUID) (sp : StreamPresence)
    (f : matchDataFilter) : Prop :=
  FromString (sp_UserId sp) = Some (userID f)
  ∧ FromString (sp_SessionId sp) = Some (sessionID f).

(** ** [core_storage.go]: the queries of a write and of a delete *)

(** A query parameter ([interface{}] in the source): the values passed are
    strings, 32-bit integers and UUIDs. *)
Inductive Param :=
| P_string (s : string)
| P_int (z : Z)
| P_int32 (z : Z)
| P_uuid (u : UUID)
| P_bytes (b : list Byte.byte).

(** The query texts of [getStorageWriteQuery], as they stand in the source. *)
(** Authoritative, no version, no owner. *)
Definition sql_write_global : string := "
INSERT INTO storage (collection, key, value, version, read, write, create_time, update_time, user_id)
SELECT $1, $2, $3, md5($4::VARCHAR), $5, $6, now(), now(), NULL
ON CONFLICT (collection, key, user_id)
DO UPDATE SET value = $3, version = md5($4::VARCHAR), read = $5, write = $6, update_time = now()
RETURNING collection, key, version"%string.

(** Authoritative, no version, with owner. *)
Definition sql_write_owned : string := "
INSERT INTO storage (collection, key, value, version, read, write, create_time, update_time, user_id)
SELECT $1, $2, $3, md5($4::VARCHAR), $5, $6, now(), now(), $7::UUID
ON CONFLICT (collection, key, user_id)
DO UPDATE SET value = $3, version = md5($4::VARCHAR), read = $5, write = $6, update_time = now()
RETURNING collection, key, version"%string.

(** Authoritative, if-none-match, no owner. *)
Definition sql_create_global : string := "
INSERT INTO storage (collection, key, value, version, read, write, create_time, update_time, user_id)
SELECT $1, $2, $3, md5($4::VARCHAR), $5, $6, now(), now(), NULL
WHERE NOT EXISTS
	(SELECT key FROM storage
		WHERE user_id = NULL
		AND collection = $1::VARCHAR
		AND key = $2::VARCHAR)
RETURNING collection, key, version"%string.

(** Authoritative, if-none-match, with owner. *)
Definition sql_create_owned : string := "
INSERT INTO storage (collection, key, value, version, read, write, create_time, update_time, user_id)
SELECT $1, $2, $3, md5($4::VARCHAR), $5, $6, now(), now(), $7::UUID
WHERE NOT EXISTS
	(SELECT key FROM storage
		WHERE user_id = $7::UUID
		AND collection = $1::VARCHAR
		AND key = $2::VARCHAR)
RETURNING collection, key, version"%string.

(** Authoritative, if-match, no owner. *)
Definition sql_match_global : string := "
INSERT INTO storage (collection, key, value, version, read, write, create_time, update_time, user_id)
SELECT $1, $2, $3, md5($4::VARCHAR), $5, $6, now(), now(), NULL
WHERE EXISTS
	(SELECT key FROM storage
		WHERE user_id = NULL
		AND collection = $1::VARCHAR
		AND key = $2::VARCHAR
		AND version = $7::VARCHAR)
ON CONFLICT (collection, key, user_id)
DO UPDATE SET value = $3, version = md5($4::VARCHAR), read = $5, write = $6, update_time = now()
RETURNING collection, key, version"%string.

(** Authoritative, if-match, with owner. *)
Definition sql_match_owned : string := "
INSERT INTO storage (collection, key, value, version, read, write, create_time, update_time, user_id)
SELECT $1, $2, $3, md5($4::VARCHAR), $5, $6, now(), now(), $8::UUID
WHERE EXISTS
	(SELECT key FROM storage
		WHERE user_id = $8::UUID
		AND collection = $1::VARCHAR
		AND key = $2::VARCHAR
		AND version = $7::VARCHAR)
ON CONFLICT (collection, key, user_id)
DO UPDATE SET value = $3, version = md5($4::VARCHAR), read = $5, write = $6, update_time = now()
RETURNING collection, key, version"%string.

(** User write, no version. *)
Definition sql_user_write : string := "
INSERT INTO storage (collection, key, value, version, read, write, create_time, update_time, user_id)
SELECT $1, $2, $3, md5($4::VARCHAR), $5, $6, now(), now(), $7::UUID
WHERE NOT EXISTS
	(SELECT key FROM storage
		WHERE user_id = $7::UUID
		AND collection = $1::VARCHAR
		AND key = $2::VARCHAR
		AND write = 0)
ON CONFLICT (collection, key, user_id)
DO UPDATE SET value = $3, version = md5($4::VARCHAR), read = $5, write = $6, update_time = now()
RETURNING collection, key, version"%string.

(** User write, if-none-match. *)
Definition sql_user_create : string := "
INSERT INTO storage (collection, key, value, version, read, write, create_time, update_time, user_id)
SELECT $1, $2, $3, md5($4::VARCHAR), $5, $6, now(), now(), $7::UUID
WHERE NOT EXISTS
	(SELECT key FROM storage
		WHERE user_id = $7::UUID
		AND collection = $1::VARCHAR
		AND key = $2::VARCHAR)
RETURNING collection, key, version"%string.

(** User write, if-match. *)
Definition sql_user_match : string := "
INSERT INTO storage (collection, key, value, version, read, write, create_time, update_time, user_id)
SELECT $1, $2, $3, md5($4::VARCHAR), $5, $6, now(), now(), $7::UUID
WHERE EXISTS
	(SELECT key FROM storage
		WHERE user_id = $7::UUID
		AND collection = $1::VARCHAR
		AND key = $2::VARCHAR
		AND version = $8::VARCHAR
		AND write = 1)
ON CONFLICT (collection, key, user_id)
DO UPDATE SET value = $3, version = md5($4::VARCHAR), read = $5, write = $6, update_time = now()
RETURNING collection, key, version"%string.

(** [uuid.Equal]: the two arrays hold the same bytes. *)
Definition Equal (u1 u2 : UUID) : bool := N.eqb u1 u2.

Definition getStorageWriteQuery (authoritativeWrite : bool) (ownerID : UUID)
    (version : string) (params : list Param) : string * list Param :=
  if authoritativeWrite then
    if String.eqb version "" then
      if Equal ownerID Nil then (sql_write_owned, params ++ [P_uuid ownerID])
      else (sql_write_global, params)
    else if String.eqb version "*" then
      if Equal ownerID Nil then (sql_create_owned, params ++ [P_uuid ownerID])
      else (sql_create_global, params)
    else
      let params := params ++ [P_string version] in
      if negb (Equal ownerID Nil) then (sql_match_owned, params ++ [P_uuid ownerID])
      else (sql_match_global, params)
  else
    let params := params ++ [P_uuid ownerID] in
    if String.eqb version "" then (sql_user_write, params)
    else if String.eqb version "*" then (sql_user_create, params)
    else (sql_user_match, params ++ [P_string version]).

(** [api.WriteStorageObject]; the permissions are optional wrapped values. *)
Record WriteStorageObject := {
  wso_Collection : string;
  wso_Key : string;
  wso_Value : string;
  wso_Version : string;
  wso_PermissionRead : option Z;
  wso_PermissionWrite : option Z
}.

(** Lines 291-302 of [storageWriteObject]: the query and the parameters that
    are handed to [tx.QueryRow]. *)
Definition storageWriteObject_query (authoritativeWrite : bool) (ownerID : UUID)
    (object : WriteStorageObject) : string * list Param :=
  let permissionRead :=
    match wso_PermissionRead object with Some v => v | None => 1%Z end in
  let permissionWrite :=
    match wso_PermissionWrite object with Some v => v | None => 1%Z end in
  let params := [P_string (wso_Collection object); P_string (wso_Key object);
                 P_string (wso_Value object); P_string (wso_Value object);
                 P_int32 permissionRead; P_int32 permissionWrite] in
  getStorageWriteQuery authoritativeWrite ownerID (wso_Version object) params.

(** [api.DeleteStorageObjectId]. *)
Record DeleteStorageObjectId := {
  dso_Collection : string;
  dso_Key : string;
  dso_Version : string
}.

(** [fmt.Sprintf("%v", n)] for a non-negative [int]. *)
Definition Sprint (n : nat) : string := NilZero.string_of_uint (Nat.to_uint n).

(** Lines 440-451 of [StorageDeleteObjects]: the query and the parameters that
    are handed to [tx.Exec] for one object. *)
Definition delete_query (authoritativeDelete : bool) (ownerID : UUID)
    (objectID : DeleteStorageObjectId) : string * list Param :=
  let params := [P_string (dso_Collection objectID); P_string (dso_Key objectID)] in
  let query :=
    "DELETE FROM storage WHERE collection = $1 AND key = $2 AND user_id = NULL"%string in
  let '(query, params) :=
    if negb authoritativeDelete then
      ("DELETE FROM storage WHERE collection = $1 AND key = $2 AND user_id = $3 AND write > 0"%string,
       params ++ [P_uuid ownerID])
    else (query, params) in
  if negb (String.eqb (dso_Version objectID) "") then
    let params := params ++ [P_string (dso_Version objectID)] in
    (query +:+ " AND version = $" +:+ Sprint (length params), params)
  else (query, params).

(** The placeholders [$n] of a query text, in order of appearance. *)
Inductive scan_state := Idle | Dollar | Number (n : nat).

Definition digit_of (c : ascii) : option nat :=
  let n := nat_of_ascii c in
  if bool_decide (48 ≤ n ≤ 57) then Some (n - 48) else None.

Fixpoint scan (st : scan_state) (cs : list ascii) : list nat :=
  match cs with
  | [] => match st with Number n => [n] | _ => [] end
  | c :: rest =>
      let emitted := match st with Number n => [n] | _ => [] end in
      match digit_of c, st with
      | Some d, Dollar => scan (Number d) rest
      | Some d, Number n => scan (Number (10 * n + d)) rest
      | _, _ =>
          emitted ++ scan (if Ascii.eqb c "$" then Dollar else Idle) rest
      end
  end.

Definition placeholders (query : string) : list nat :=
  scan Idle (list_ascii_of_string query).

(** Every parameter position from 1 to [n] occurs in the text, and none beyond. *)
Definition uses_exactly (query : string) (n : nat) : bool :=
  forallb (λ k, existsb (Nat.eqb k) (placeholders query)) (seq 1 n)
  && forallb (λ k, (1 <=? k) && (k <=? n)) (placeholders query).

Definition is_owner_param (p : Param) : bool :=
  match p with P_uuid _ => true | _ => false end.

(** The query writes the row whose [user_id] is NULL. *)
Definition addresses_global (query : string) : bool :=
  existsb (String.eqb query) [sql_write_global; sql_create_global; sql_match_global].

(** ** [core_storage.go]: the queries of the three listings and of a read *)

(** [storageCursor]. *)
Record storageCursor := {
  sc_Key : string;
  sc_UserID : list Byte.byte;
  sc_Read : Z
}.

(** [StorageListObjectsPublicRead], lines 40-55: the query and the parameters
    handed to [db.Query]. *)
Definition StorageListObjectsPublicRead_query (collection : string) (limit : Z)
    (storageCursor : option storageCursor) : string * list Param :=
  let cursorQuery := ""%string in
  let params := [P_string collection; P_int limit] in
  let '(cursorQuery, params) :=
    match storageCursor with
    | Some c =>
        (" AND (collection, read, key, user_id) > ($1, 2, $3, $4) "%string,
         params ++ [P_string (sc_Key c); P_bytes (sc_UserID c)])
    | None => (cursorQuery, params)
    end in
  let query := ("
SELECT collection, key, user_id, value, version, read, write, create_time, update_time
FROM storage
WHERE collection = $1 AND read = 2" +:+ cursorQuery +:+ "
LIMIT $2
")%string in
  (query, params).

(** [StorageListObjectsPublicReadUser], lines 73-88: the query and the parameters
    handed to [db.Query]. *)
Definition StorageListObjectsPublicReadUser_query (userID : UUID) (collection : string) (limit : Z)
    (storageCursor : option storageCursor) : string * list Param :=
  let cursorQuery := ""%string in
  let params := [P_string collection; P_uuid userID; P_int limit] in
  let '(cursorQuery, params) :=
    match storageCursor with
    | Some c =>
        (" AND (collection, read, key, user_id) > ($1, 2, $4, $5) "%string,
         params ++ [P_string (sc_Key c); P_bytes (sc_UserID c)])
    | None => (cursorQuery, params)
    end in
  let query := ("
SELECT collection, key, user_id, value, version, read, write, create_time, update_time
FROM storage
WHERE collection = $1 AND read = 2 AND user_id = $2 " +:+ cursorQuery +:+ "
LIMIT $3
")%string in
  (query, params).

(** [StorageListObjectsUser], lines 106-121: the query and the parameters
    handed to [db.Query]. *)
Definition StorageListObjectsUser_query (userID : UUID) (collection : string) (limit : Z)
    (storageCursor : option storageCursor) : string * list Param :=
  let cursorQuery := ""%string in
  let params := [P_string collection; P_uuid userID; P_int limit] in
  let '(cursorQuery, params) :=
    match storageCursor with
    | Some c =>
        (" AND (collection, read, key, user_id) > ($1, $4, $5, $6) "%string,
         params ++ [P_int32 (sc_Read c); P_string (sc_Key c); P_bytes (sc_UserID c)])
    | None => (cursorQuery, params)
    end in
  let query := ("
SELECT collection, key, user_id, value, version, read, write, create_time, update_time
FROM storage
WHERE collection = $1 AND read > 0 AND user_id = $2 " +:+ cursorQuery +:+ "
LIMIT $3
")%string in
  (query, params).

(** [api.ReadStorageObjectId]. *)
Record ReadStorageObjectId := {
  rso_Collection : string;
  rso_Key : string;
  rso_UserId : string
}.

(** One round of the loop of [StorageReadObjects], lines 194-210. *)
Definition read_clause (userID : UUID) (acc : string * list Param)
    (id : ReadStorageObjectId) : string * list Param :=
  let '(whereClause, params) := acc in
  let l := length params in
  let whereClause :=
    if negb (String.eqb whereClause "") then (whereClause +:+ " OR ")%string
    else whereClause in
  if String.eqb (rso_UserId id) "" then
    ((whereClause +:+ " (collection = $" +:+ Sprint (l + 1) +:+ " AND key = $"
        +:+ Sprint (l + 2) +:+ " AND user_id = NULL AND read = 2) ")%string,
     params ++ [P_string (rso_Collection id); P_string (rso_Key id)])
  else if Equal userID Nil then
    ((whereClause +:+ " (collection = $" +:+ Sprint (l + 1) +:+ " AND key = $"
        +:+ Sprint (l + 2) +:+ " AND user_id = $" +:+ Sprint (l + 3) +:+ ") ")%string,
     params ++ [P_string (rso_Collection id); P_string (rso_Key id);
                P_string (rso_UserId id)])
  else
    ((whereClause +:+ " (collection = $" +:+ Sprint (l + 1) +:+ " AND key = $"
        +:+ Sprint (l + 2) +:+ " AND user_id = $" +:+ Sprint (l + 3)
        +:+ " AND (read = 2 OR (read = 1 AND user_id = $" +:+ Sprint (l + 4)
        +:+ "))) ")%string,
     params ++ [P_string (rso_Collection id); P_string (rso_Key id);
                P_string (rso_UserId id); P_uuid userID]).

(** [StorageReadObjects], lines 191-217: the query and the parameters handed to
    [db.Query]. *)
Definition StorageReadObjects_query (userID : UUID)
    (objectIDs : list ReadStorageObjectId) : string * list Param :=
  let '(whereClause, params) := foldl (read_clause userID) (""%string, []) objectIDs in
  let query := ("
SELECT collection, key, user_id, value, version, read, write, create_time, update_time
FROM storage
WHERE
" +:+ whereClause)%string in
  (query, params).

(** The parameter that a placeholder of the text stands for. *)
Definition bound (q : string * list Param) (k : nat) : option Param :=
  match k with 0 => None | S i => snd q !! i end.

(** The values that take the place of the placeholders, reading the text from
    left to right. *)
Definition substituted (q : string * list Param) : list Param :=
  omap (bound q) (placeholders (fst q)).

(** ** [ApiServer.ListStorageObjects]: listing through the API *)

(** [codes.Code] and [status.Error]. *)
Inductive Code := InvalidArgument | Internal.

Record Status := { st_Code : Code; st_Message : string }.

(** [api.ListStorageObjectsRequest]; the limit is a wrapped [int32] that may be
    absent. *)
Record ListStorageObjectsRequest := {
  lr_UserId : string;
  lr_Collection : string;
  lr_Limit : option Z;
  lr_Cursor : string
}.

(** The listing that [ListStorageObjects] asks for, with its arguments. *)
Inductive Listing :=
| StorageObjectsListUser (user : UUID) (collection : string) (limit : Z)
    (cursor : string) (sc : option storageCursor)
| StorageObjectsListPublicReadUser (user : UUID) (collection : string) (limit : Z)
    (cursor : string) (sc : option storageCursor)
| StorageObjectsListPublicRead (collection : string) (limit : Z)
    (cursor : string) (sc : option storageCursor).

Definition listing_limit (l : Listing) : Z :=
  match l with
  | StorageObjectsListUser _ _ n _ _ | StorageObjectsListPublicReadUser _ _ n _ _
  | StorageObjectsListPublicRead _ n _ _ => n
  end.

Definition listing_cursor (l : Listing) : string * option storageCursor :=
  match l with
  | StorageObjectsListUser _ _ _ c sc | StorageObjectsListPublicReadUser _ _ _ c sc
  | StorageObjectsListPublicRead _ _ c sc => (c, sc)
  end.

Section Api.

(** [uuid.FromString], [base64.RawURLEncoding.DecodeString] and the gob decoder
    of a cursor; [None] stands for an error. *)
Variable FromString : string → option UUID.
Variable DecodeString : string → option (list Byte.byte).
Variable Decode : list Byte.byte → option storageCursor.

(** [ListStorageObjects], lines 31-71: up to the listing that is asked for.
    [userID] is the value of the context, the caller. *)
Definition ListStorageObjects_listing (userID : UUID) (in_ : ListStorageObjectsRequest) :
    Status + Listing :=
  let limit :=
    match lr_Limit in_ with
    | Some v =>
        if (v <? 1)%Z || (v >? 100)%Z then
          inl {| st_Code := InvalidArgument;
                 st_Message := "Invalid limit - limit must be between 1 and 100." |}
        else inr v
    | None => inr 1%Z
    end in
  match limit with
  | inl e => inl e
  | inr limit =>
      let cursor := lr_Cursor in_ in
      let sc :=
        if negb (String.eqb cursor "") then
          match DecodeString cursor with
          | None => inl {| st_Code := InvalidArgument;
                           st_Message := "Malformed cursor was used." |}
          | Some cb =>
              match Decode cb with
              | None => inl {| st_Code := InvalidArgument;
                               st_Message := "Malformed cursor was used." |}
              | Some sc => inr (Some sc)
              end
          end
        else inr None in
      match sc with
      | inl e => inl e
      | inr sc =>
          if negb (String.eqb (lr_UserId in_) "") then
            match FromString (lr_UserId in_) with
            | None =>
                inl {| st_Code := InvalidArgument;
                       st_Message := "Invalid user ID - make sure user ID is a valid UUID." |}
            | Some uid =>
                if Equal userID uid then
                  inr (StorageObjectsListUser userID (lr_Collection in_) limit cursor sc)
                else
                  inr (StorageObjectsListPublicReadUser uid (lr_Collection in_) limit
                         cursor sc)
            end
          else inr (StorageObjectsListPublicRead (lr_Collection in_) limit cursor sc)
      end
  end.

End Api.

(** * Properties *)

(** ** Sample values *)

Example SplitN_relayed :
  SplitN "6ba7b810-9dad-11d1-80b4-00c04fd430c8:" colon 2
  = ["6ba7b810-9dad-11d1-80b4-00c04fd430c8"; ""].
Proof. reflexivity. Qed.

Example SplitN_authoritative :
  SplitN "6ba7b810-9dad-11d1-80b4-00c04fd430c8:node1:x" colon 2
  = ["6ba7b810-9dad-11d1-80b4-00c04fd430c8"; "node1:x"].
Proof. reflexivity. Qed.

Example SplitN_no_separator : SplitN "abc" colon 2 = ["abc"].
Proof. reflexivity. Qed.

Example String_example :
  String 0x6ba7b8109dad11d180b400c04fd430c8%N
  = "6ba7b810-9dad-11d1-80b4-00c04fd430c8".
Proof. reflexivity. Qed.

(** ** The registry *)

Lemma log_trace e w : trace (log e w) = trace w ++ [e].
Proof. reflexivity. Qed.

Lemma mailbox_full_refuses mh m : mailbox_full mh = true → fst (QueueCall mh m) = false.
Proof.
  intros Hfull. unfold QueueCall, enqueue. rewrite Hfull, orb_true_r. reflexivity.
Qed.

Lemma tr_UntrackByStream_empties t stream :
  tr_ListByStream (tr_UntrackByStream t stream) stream = [].
Proof.
  unfold tr_ListByStream, tr_UntrackByStream; simpl.
  induction (tr_presences t) as [|p l IH]; simpl; [reflexivity|].
  destruct (on_stream stream p) eqn:Hp; simpl; [exact IH|].
  rewrite Hp. exact IH.
Qed.

(** C8: after [RemoveMatch(id, stream)] the directory has no entry for [id] and
    [UntrackByStream(stream)] has been called (so the stream has no presence
    left), whether or not [id] was registered; for an unregistered [id] the
    directory is left as it was, and removing twice is removing once. *)
Theorem RemoveMatch_removes_and_untracks (w : World) (id : UUID) (stream : PresenceStream) :
  let w' := RemoveMatch w id stream in
  matches (matchRegistry w') !! id = None
  ∧ trace w' = trace w ++ [ELock; EUnlock; EUntrackByStream stream]
  ∧ tracker w' = tr_UntrackByStream (tracker w) stream
  ∧ tr_ListByStream (tracker w') stream = []
  ∧ (matches (matchRegistry w) !! id = None →
       matches (matchRegistry w') = matches (matchRegistry w))
  ∧ matches (matchRegistry (RemoveMatch w' id stream)) = matches (matchRegistry w')
  ∧ tracker (RemoveMatch w' id stream) = tracker w'.
Proof.
  cbv zeta. unfold RemoveMatch, UntrackByStream. simpl.
  repeat split.
  - apply lookup_delete_eq.
  - rewrite <- !app_assoc. reflexivity.
  - apply tr_UntrackByStream_empties.
  - intros Hnone. by apply delete_id.
  - apply delete_id, lookup_delete_eq.
  - unfold tr_UntrackByStream; simpl. f_equal.
    induction (tr_presences (tracker w)) as [|p l IH]; simpl; [reflexivity|].
    destruct (on_stream stream p) eqn:Hp; simpl; [exact IH|].
    rewrite Hp. simpl. by rewrite IH.
Qed.

(** C5: a [Join], [Leave] or [SendData] addressed to a node other than the
    registry's own returns at once, [Join] with (false, false): the world is
    returned as it was given, so the directory and every mailbox are unchanged
    and the trace has no new entry (no lock was taken, nothing was queued). *)
Theorem other_node_is_noop (w : World) (id : UUID) (node_ : string)
    (userID sessionID : UUID) (username fromNode : string) (reply : option Reply)
    (tie : bool) (presences : list Presence) (opCode : Z) (data : list N) :
  node_ ≠ node (matchRegistry w) →
  Join w id node_ userID sessionID username fromNode reply tie = ((false, false), w)
  ∧ Leave w id node_ presences = w
  ∧ SendData w id node_ userID sessionID username fromNode opCode data = w.
Proof.
  intros Hnode. unfold Join, Leave, SendData.
  rewrite !bool_decide_eq_true_2 by exact Hnode. done.
Qed.

Lemma other_node_is_noop_witness :
  "node2"%string ≠ node (matchRegistry sample_world)
  ∧ Join sample_world 7 "node2" 11 1 "alice" "node1" None false = ((false, false), sample_world)
  ∧ Leave sample_world 7 "node2" [] = sample_world
  ∧ SendData sample_world 7 "node2" 11 1 "alice" "node1" 1 [] = sample_world.
Proof.
  split; [discriminate|].
  apply (other_node_is_noop sample_world 7 "node2" 11 1 "alice" "node1" None false [] 1 []).
  discriminate.
Defined.

(** C2: the answers of [Join].  A node label other than the local one, or an
    identifier missing from the directory, gives (false, false).  For a
    registered match whose mailbox refuses the message (a full mailbox does)
    the answer is (true, false) and no ticker is ever created.  Once the
    message is queued the answer is (true, r) when the actor's reply [r]
    arrives before the limit of ten seconds, and (true, false) when it arrives
    after the limit or never: "found" is true in every one of these cases. *)
Theorem Join_answers (w : World) (id : UUID) (node_ : string)
    (userID sessionID : UUID) (username fromNode : string) (reply : option Reply)
    (tie : bool) :
  let r := matchRegistry w in
  let msg := JoinAttempt userID sessionID username fromNode in
  let out := Join w id node_ userID sessionID username fromNode reply tie in
  joinTimeout = (10 * 1000000000)%Z
  ∧ (node_ ≠ node r → fst out = (false, false))
  ∧ (node_ = node r → matches r !! id = None → fst out = (false, false))
  ∧ (∀ mh, node_ = node r → matches r !! id = Some mh →
       (mailbox_full mh = true → fst (QueueCall mh msg) = false)
       ∧ (fst (QueueCall mh msg) = false →
            fst out = (true, false)
            ∧ trace (snd out) = trace w ++ [ERLock; ERUnlock; EQueueCall id msg false])
       ∧ (fst (QueueCall mh msg) = true →
            fst (fst out) = true
            ∧ (∀ rp, reply = Some rp → (reply_after rp < joinTimeout)%Z →
                 fst out = (true, reply_value rp))
            ∧ (∀ rp, reply = Some rp → (joinTimeout < reply_after rp)%Z →
                 fst out = (true, false))
            ∧ (reply = None → fst out = (true, false)))).
Proof.
  cbv zeta. split; [reflexivity|]. unfold Join.
  split; [|split].
  - intros Hne. by rewrite bool_decide_eq_true_2.
  - intros Heq Hnone. rewrite bool_decide_eq_false_2 by (intros H; by apply H).
    simpl. by rewrite Hnone.
  - intros mh Heq Hsome. rewrite bool_decide_eq_false_2 by (intros H; by apply H).
    simpl. rewrite Hsome.
    split; [apply mailbox_full_refuses|].
    destruct (QueueCall mh (JoinAttempt userID sessionID username fromNode))
      as [queued mh'] eqn:Hq.
    simpl. split.
    + intros ->. simpl. split; [reflexivity|].
      rewrite <- !app_assoc. reflexivity.
    + intros ->. simpl. unfold select.
      split; [|split; [|split]].
      * destruct reply as [rp|]; [|reflexivity].
        destruct (reply_after rp <? joinTimeout)%Z; [reflexivity|].
        destruct (joinTimeout <? reply_after rp)%Z; [reflexivity|].
        destruct tie; reflexivity.
      * intros rp -> Hlt. apply Z.ltb_lt in Hlt. rewrite Hlt. reflexivity.
      * intros rp -> Hlt.
        assert ((reply_after rp <? joinTimeout)%Z = false) as -> by (apply Z.ltb_ge; lia).
        apply Z.ltb_lt in Hlt. rewrite Hlt. reflexivity.
      * intros ->. reflexivity.
Qed.

(** ** Wire identifiers *)

Lemma hexdigit_in_table n : In (hexdigit n) hextable.
Proof.
  unfold hexdigit.
  destruct (nth_in_or_default (N.to_nat n) hextable "0"%char) as [Hin | ->];
    [exact Hin | left; reflexivity].
Qed.

Lemma hexdigit_not_colon n : hexdigit n ≠ colon.
Proof.
  pose proof (hexdigit_in_table n) as Hin. intros Heq. rewrite Heq in Hin.
  unfold hextable, colon in Hin. simpl in Hin.
  repeat (destruct Hin as [Hin|Hin]; [discriminate Hin|]). exact Hin.
Qed.

Lemma hex_encode_no_colon u from len : Forall (λ c, c ≠ colon) (hex_encode u from len).
Proof.
  unfold hex_encode. generalize (seq from len) as l.
  induction l as [|i l IH]; simpl; [constructor|].
  repeat constructor; auto using hexdigit_not_colon.
Qed.

Lemma cut_first_separator sep (l : list ascii) (rest : string) :
  Forall (λ c, c ≠ sep) l →
  cut sep (string_of_list_ascii l +:+ String.String sep rest)
  = Some (string_of_list_ascii l, rest).
Proof.
  induction 1 as [|c l Hc _ IH]; simpl.
  - by rewrite Ascii.eqb_refl.
  - destruct (Ascii.eqb_spec c sep) as [->|_]; [done|]. by rewrite IH.
Qed.

Lemma String_no_colon u :
  ∃ l, String u = string_of_list_ascii l ∧ Forall (λ c, c ≠ colon) l.
Proof.
  eexists. split; [reflexivity|].
  repeat first [ apply hex_encode_no_colon
               | apply Forall_app; split
               | apply Forall_cons; split
               | unfold dash, colon; discriminate ].
Qed.

(** The wire form of a relayed match splits back into the identifier's text and
    an empty node label. *)
Lemma SplitN_relayed_wire_id u : SplitN (String u +:+ ":") colon 2 = [String u; ""%string].
Proof.
  destruct (String_no_colon u) as (l & -> & Hl).
  simpl. change ":"%string with (String.String colon ""). by rewrite cut_first_separator.
Qed.

(** C10: [matchCreate] tracks the creating session, and nothing else, on the
    relayed-mode stream of the fresh identifier; it leaves the match registry
    as it was and makes no call to it; and it answers with the wire identifier
    "<uuid>:" (which splits into the identifier and an empty node label) and a
    presence list that holds exactly the creator, who is also "self". *)
Theorem matchCreate_is_relayed (w : World) (s : session) (envelope : Envelope) (matchID : UUID) :
  let stream := {| Mode := StreamModeMatchRelayed; Subject := matchID;
                   Descriptor := Nil; Label := ""%string |} in
  let self := {| sp_UserId := String (s_UserID s); sp_SessionId := String (s_ID s);
                 sp_Username := s_Username s |} in
  let w' := matchCreate w s envelope matchID in
  trace w' = trace w ++
    [ETrack (s_ID s) stream (s_UserID s) (session_meta s);
     ESessionSend (s_ID s)
       {| Cid := Cid envelope;
          Message := Some (Envelope_Match
            {| m_MatchId := String matchID +:+ ":";
               m_Presences := [self]; m_Self := self |}) |}]
  ∧ tracker w' = tr_Track (tracker w) (s_ID s) stream (s_UserID s) (session_meta s)
  ∧ matchRegistry w' = matchRegistry w
  ∧ SplitN (String matchID +:+ ":") colon 2 = [String matchID; ""%string].
Proof.
  cbv zeta. unfold matchCreate, Send, Track, log, set_tracker.
  cbn [trace tracker matchRegistry].
  split; [|split; [|split]].
  - rewrite <- app_assoc. reflexivity.
  - reflexivity.
  - reflexivity.
  - apply SplitN_relayed_wire_id.
Qed.

(** ** The relayed routing scan *)


Lemma existsb_Permutation {A} (f : A → bool) (l l' : list A) :
  l ≡ₚ l' → existsb f l = existsb f l'.
Proof.
  induction 1 as [|x l l' _ IH|x y l|l l' l'' _ IH1 _ IH2]; simpl.
  - reflexivity.
  - by rewrite IH.
  - destruct (f x), (f y); reflexivity.
  - congruence.
Qed.

Lemma swap_remove_length {A} (l : list A) i :
  l ≠ [] → length (swap_remove l i) = length l - 1.
Proof.
  intros Hne. unfold swap_remove.
  destruct (last l) as [x|] eqn:Hl.
  - rewrite length_take, length_insert. lia.
  - apply last_None in Hl. contradiction.
Qed.

Lemma swap_remove_middle {A} (l1 : list A) x l2 :
  ∃ rest, swap_remove (l1 ++ x :: l2) (length l1) = l1 ++ rest ∧ rest ≡ₚ l2.
Proof.
  unfold swap_remove.
  destruct l2 as [|z l2' _] using rev_ind.
  - exists []. split; [|done].
    rewrite last_snoc. cbn beta iota.
    rewrite insert_app_r_alt, Nat.sub_diag by lia. simpl.
    rewrite length_app. simpl.
    replace (length l1 + 1 - 1) with (length l1) by lia.
    by rewrite take_app_length, app_nil_r.
  - exists (z :: l2'). split; [|by rewrite Permutation_app_comm].
    assert (l1 ++ x :: l2' ++ [z] = (l1 ++ x :: l2') ++ [z]) as ->
      by (by rewrite <- app_assoc).
    rewrite last_snoc. cbn beta iota.
    rewrite <- app_assoc. simpl.
    rewrite insert_app_r_alt, Nat.sub_diag by lia. simpl.
    rewrite length_app. simpl. rewrite length_app. simpl.
    assert (l1 ++ z :: l2' ++ [z] = (l1 ++ z :: l2') ++ [z]) as ->
      by (by rewrite <- app_assoc).
    replace (length l1 + S (length l2' + 1) - 1) with (length (l1 ++ z :: l2'))
      by (rewrite length_app; simpl; lia).
    by rewrite take_app_length.
Qed.

(** Removing by swapping with the last element keeps the first [i] elements
    and permutes the ones after index [i]. *)
Lemma swap_remove_split {A} (l : list A) i x :
  l !! i = Some x →
  ∃ rest, swap_remove l i = take i l ++ rest ∧ rest ≡ₚ drop (S i) l.
Proof.
  intros Hi.
  pose proof (take_drop_middle l i x Hi) as Hl.
  pose proof (lookup_lt_Some _ _ _ Hi) as Hlt.
  assert (length (take i l) = i) as Hlen by (rewrite length_take; lia).
  destruct (swap_remove_middle (take i l) x (drop (S i) l)) as (rest & Heq & Hperm).
  rewrite Hl, Hlen in Heq. eauto.
Qed.


Lemma find_filter_Some p fs k j :
  find_filter p fs k = Some j →
  ∃ f, fs !! (j - k) = Some f ∧ filter_matches p f = true ∧ named fs p = true.
Proof.
  revert k. induction fs as [|f fs IH]; intros k; simpl; [done|].
  destruct (filter_matches p f) eqn:Hm.
  - intros [= <-]. exists f. by rewrite Nat.sub_diag.
  - intros Hj. destruct (IH _ Hj) as (f' & Hl & Hm' & Hn). exists f'.
    assert (S k ≤ j) as Hle.
    { clear -Hj. revert k Hj. induction fs as [|g fs IH]; intros k; simpl; [done|].
      destruct (filter_matches p g); [intros [= <-]; lia|].
      intros Hj. apply IH in Hj. lia. }
    replace (j - k) with (S (j - S k)) by lia. done.
Qed.

Lemma find_filter_index p fs j :
  find_filter p fs 0 = Some j →
  ∃ f, fs !! j = Some f ∧ filter_matches p f = true.
Proof.
  intros Hj. destruct (find_filter_Some _ _ _ _ Hj) as (f & Hl & Hm & _).
  rewrite Nat.sub_0_r in Hl. eauto.
Qed.




Lemma relay_loop_done s ps filters senderFound i :
  ps !! i = None → relay_loop s ps filters senderFound i = (ps, senderFound).
Proof.
  intros Hi. rewrite relay_loop_equation_1.
  destruct (inspect (ps !! i)) as [[q|] Hq]; [congruence|].
  by simp relay_loop.
Qed.

Lemma relay_loop_step s ps filters senderFound i p :
  ps !! i = Some p →
  relay_loop s ps filters senderFound i =
    if is_sender s p then
      match filters with
      | None => (swap_remove ps i, true)
      | Some _ => relay_loop s (swap_remove ps i) filters true i
      end
    else
      match filters with
      | None => relay_loop s ps filters senderFound (S i)
      | Some fs =>
          match find_filter p fs 0 with
          | Some j => relay_loop s ps (Some (swap_remove fs j)) senderFound (S i)
          | None => relay_loop s (swap_remove ps i) filters senderFound i
          end
      end.
Proof.
  intros Hi. rewrite relay_loop_equation_1.
  destruct (inspect (ps !! i)) as [[q|] Hq]; [|congruence].
  simp relay_loop. assert (q = p) as -> by congruence. reflexivity.
Qed.












(** ** Joining *)










(** The routing examples of the spec: members alice, bob and carol. *)
Example relay_no_filter :
  routed (matchDataSend_relay sample_world alice sample_data None 9)
  = [[(3, 13); (2, 12)]]%N.
Proof. reflexivity. Qed.

Example relay_filter_member :
  routed (matchDataSend_relay sample_world alice sample_data (Some [bob_filter]) 9)
  = [[(2, 12)]]%N.
Proof. reflexivity. Qed.

Example relay_filter_stranger :
  routed (matchDataSend_relay sample_world alice sample_data (Some [dave_filter]) 9) = [].
Proof. reflexivity. Qed.

Example relay_sender_not_member :
  routed (matchDataSend_relay sample_world dave sample_data (Some [bob_filter]) 9) = [].
Proof. reflexivity. Qed.




Example relayed_join_unknown_match :
  List.filter is_session_send
    (trace (matchJoin_body sample_world dave (join_envelope "id:") "id:" 5 "" None false))
  = [ESessionSend 4 (error_envelope "1" Error_MATCH_NOT_FOUND "Match not found")].
Proof. reflexivity. Qed.

Example relayed_join_accepts :
  map presence_key
    (tr_ListByStream
       (tracker (matchJoin_body sample_world dave (join_envelope "id:") "id:" 9 "" None false))
       (relayed_stream 9))
  = [(1, 11); (2, 12); (3, 13); (4, 14)]%N.
Proof. reflexivity. Qed.

(** ** Parsing identifiers and filters *)

Example canonical_FromString_String :
  canonical_FromString (String 0x6ba7b8109dad11d180b400c04fd430c8)
  = Some 0x6ba7b8109dad11d180b400c04fd430c8%N.
Proof. reflexivity. Qed.

Example canonical_FromString_rejects : canonical_FromString "not-a-uuid" = None.
Proof. reflexivity. Qed.

Section Parsing.

Variable FromString : string → option UUID.



(** C3, as the code has it: [matchJoin] and [matchDataSend] take the
    identifier from [envelope.GetMatchLeave()], which is nil for a join or a
    data-send envelope, so both stop in a panic whatever identifier their own
    message carries: no reply is sent and nothing acts on the parsed pair. *)
Theorem join_and_data_send_read_the_leave_message (w : World) (s : session)
    (cid id : string) (reply : option Reply) (tie : bool) (m : MatchDataSend) :
  matchJoin FromString w s
    {| Cid := cid;
       Message := Some (Envelope_MatchJoin {| mj_Id := Some (MatchJoin_MatchId id) |}) |}
    reply tie = Panicked w
  ∧ matchDataSend FromString w s
      {| Cid := cid; Message := Some (Envelope_MatchDataSend m) |} = Panicked w.
Proof. split; reflexivity. Qed.

(** [matchLeave] does parse the identifier of its own message. *)
Lemma matchLeave_parses_its_own_identifier (w : World) (s : session) (cid : string)
    (u : UUID) (label : string) :
  FromString (String u) = Some u →
  matchLeave FromString w s
    {| Cid := cid;
       Message := Some (Envelope_MatchLeave
                          {| ml_MatchId := String u +:+ String.String colon label |}) |}
  = Returned (matchLeave_body w s
                {| Cid := cid;
                   Message := Some (Envelope_MatchLeave
                                      {| ml_MatchId := String u +:+ String.String colon label |}) |}
                u label).
Proof.
  intros Hparse. unfold matchLeave, GetMatchLeave. cbn [Message ml_MatchId].
  destruct (String_no_colon u) as (l & Hl & Hno).
  assert (SplitN (String u +:+ String.String colon label) colon 2 = [String u; label]) as ->.
  { rewrite Hl. cbn [SplitN]. by rewrite cut_first_separator. }
  by rewrite Hparse.
Qed.

Lemma matchLeave_missing_separator (w : World) (s : session) (cid id : string) :
  cut colon id = None →
  matchLeave FromString w s
    {| Cid := cid; Message := Some (Envelope_MatchLeave {| ml_MatchId := id |}) |}
  = Returned (Send w s (error_envelope cid Error_BAD_INPUT "Invalid match ID")).
Proof.
  intros Hcut. unfold matchLeave, GetMatchLeave. cbn [Message ml_MatchId Cid SplitN].
  by rewrite Hcut.
Qed.

End Parsing.


Example join_panics :
  matchJoin canonical_FromString sample_world dave
    (join_envelope "00000000-0000-0000-0000-000000000009:") None false
  = Panicked sample_world.
Proof. reflexivity. Qed.

Example data_send_panics :
  matchDataSend canonical_FromString sample_world alice (data_envelope sample_data)
  = Panicked sample_world.
Proof. reflexivity. Qed.

(** ** The authoritative path *)

Section Authoritative.

Variable FromString : string → option UUID.


End Authoritative.



(** * Further properties *)

(** ** The registry: kicking, stopping, registering *)

Lemma Kick_registry w stream presences :
  matchRegistry (Kick w stream presences) = matchRegistry w.
Proof.
  revert w. induction presences as [|p rest IH]; intros w; simpl; [done|].
  case_bool_decide; [apply IH|]. by rewrite IH.
Qed.

(** X1: [Kick] untracks exactly the presences of the local node, one call each and
    in the order given, on the stream given; presences of other nodes cause no
    call at all, and the directory is not changed. *)
Theorem Kick_untracks_local_presences (w : World) (stream : PresenceStream)
    (presences : list MatchPresence) :
  trace (Kick w stream presences)
  = trace w ++ map (λ p, EUntrack (mp_SessionId p) stream (mp_UserId p))
                 (List.filter (local_presence w) presences)
  ∧ matchRegistry (Kick w stream presences) = matchRegistry w.
Proof.
  split; [|apply Kick_registry].
  revert w. induction presences as [|p rest IH]; intros w; simpl.
  - by rewrite app_nil_r.
  - unfold local_presence at 1. case_bool_decide as Hnode.
    + rewrite bool_decide_eq_false_2 by done. apply IH.
    + rewrite bool_decide_eq_true_2 by done.
      rewrite IH. unfold Untrack, log, set_tracker. cbn [trace matchRegistry map].
      rewrite <- app_assoc. reflexivity.
Qed.

Lemma foldl_delete_all {A} (l : list (N * A)) : ∀ m : gmap N A,
  (∀ i, is_Some (m !! i) → i ∈ l.*1) →
  foldl (λ m e, delete (fst e) m) m l = ∅.
Proof.
  induction l as [|e l IH]; intros m Hkeys; simpl.
  - apply map_empty. intros i. apply eq_None_not_Some. intros Hi.
    apply Hkeys in Hi. by apply elem_of_nil in Hi.
  - apply IH. intros i Hi.
    destruct (decide (i = e.1)) as [-> | Hne].
    + rewrite lookup_delete_eq in Hi. by destruct Hi.
    + rewrite lookup_delete_ne in Hi by done.
      apply Hkeys in Hi. rewrite fmap_cons in Hi.
      apply elem_of_cons in Hi as [? | ?]; done.
Qed.

Lemma Stop_empties w : matches (matchRegistry (snd (Stop w))) = ∅.
Proof.
  unfold Stop. cbn [snd log set_matches matchRegistry matches].
  apply foldl_delete_all. intros i [mh Hi].
  apply list_elem_of_fmap. exists (i, mh). split; [done|].
  by apply elem_of_map_to_list.
Qed.

(** X2: After [Stop] the directory is empty and the tracker untouched; every
    handler that was registered has been closed and refuses any further call;
    and a later [Join] answers (false, false) for every identifier and node,
    while [Leave] and [SendData] queue nothing. *)
Theorem Stop_then_nothing_is_found (w : World) :
  let closed := fst (Stop w) in
  let w' := snd (Stop w) in
  matches (matchRegistry w') = ∅
  ∧ tracker w' = tracker w
  ∧ (∀ id mh, matches (matchRegistry w) !! id = Some mh → Close mh ∈ closed)
  ∧ (∀ mh m, mh ∈ closed → fst (QueueCall mh m) = false)
  ∧ (∀ id node_ userID sessionID username fromNode reply tie,
       fst (Join w' id node_ userID sessionID username fromNode reply tie) = (false, false))
  ∧ (∀ id node_ presences,
       existsb is_queue_event (new_events w' (Leave w' id node_ presences)) = false)
  ∧ (∀ id node_ userID sessionID username fromNode opCode data,
       existsb is_queue_event
         (new_events w' (SendData w' id node_ userID sessionID username fromNode opCode data))
       = false).
Proof.
  cbv zeta. pose proof (Stop_empties w) as Hempty.
  split; [done|]. split; [done|]. split; [|split; [|split; [|split]]].
  - intros id mh Hid. unfold Stop. cbn [fst log set_matches matchRegistry matches].
    apply list_elem_of_In, in_map_iff. exists (id, mh). split; [done|].
    apply list_elem_of_In. by apply elem_of_map_to_list.
  - intros mh m Hin. unfold Stop in Hin. cbn [fst] in Hin.
    apply list_elem_of_In, in_map_iff in Hin as (e & <- & _). reflexivity.
  - intros. unfold Join. case_bool_decide; [done|].
    cbn [log matchRegistry]. by rewrite Hempty, lookup_empty.
  - intros. unfold Leave. case_bool_decide.
    + unfold new_events. by rewrite drop_all.
    + cbn [log matchRegistry]. rewrite Hempty, lookup_empty.
      unfold new_events, log. cbn [trace]. rewrite <- app_assoc.
      by rewrite drop_app_length.
  - intros. unfold SendData. case_bool_decide.
    + unfold new_events. by rewrite drop_all.
    + cbn [log matchRegistry]. rewrite Hempty, lookup_empty.
      unfold new_events, log. cbn [trace]. rewrite <- app_assoc.
      by rewrite drop_app_length.
Qed.

(** [Join]'s answer as a function of what it finds. *)
Lemma Join_answer w id node_ userID sessionID username fromNode reply tie :
  fst (Join w id node_ userID sessionID username fromNode reply tie)
  = if bool_decide (node_ ≠ node (matchRegistry w)) then (false, false)
    else match matches (matchRegistry w) !! id with
         | None => (false, false)
         | Some mh =>
             if fst (QueueCall mh (JoinAttempt userID sessionID username fromNode))
             then match select joinTimeout reply tie with
                  | case_ticker => (true, false)
                  | case_result r => (true, r)
                  end
             else (true, false)
         end.
Proof.
  unfold Join. case_bool_decide; [done|]. cbn [log matchRegistry].
  destruct (matches (matchRegistry w) !! id) as [mh|]; [|done].
  destruct (QueueCall mh _) as [[] mh']; cbn; [|done].
  by destruct (select _ _ _).
Qed.

Lemma enqueue_effect mh m :
  snd (enqueue mh m) = mh
  ∨ ∃ m', mh_mailbox (snd (enqueue mh m)) = mh_mailbox mh ++ [m']
          ∧ length (mh_mailbox mh) < mh_capacity mh.
Proof.
  unfold enqueue. destruct (mh_closed mh); [by left|]. cbn [orb].
  unfold mailbox_full. case_bool_decide; [by left|].
  right. exists m. cbn. split; [done | lia].
Qed.

Lemma touches_only_unchanged id w w' :
  tracker w' = tracker w → p_node w' = p_node w → matchRegistry w' = matchRegistry w →
  touches_only id w w'.
Proof.
  intros Ht Hp Hr. unfold touches_only. rewrite Ht, Hp, Hr.
  repeat split; try done. intros mh Hmh. exists mh. by split; [|left].
Qed.

Lemma touches_only_queued id w w' mh m :
  tracker w' = tracker w → p_node w' = p_node w →
  node (matchRegistry w') = node (matchRegistry w) →
  matches (matchRegistry w) !! id = Some mh →
  matches (matchRegistry w') = <[id := snd (enqueue mh m)]> (matches (matchRegistry w)) →
  touches_only id w w'.
Proof.
  intros Ht Hp Hn Hmh Hm. unfold touches_only. rewrite Ht, Hp, Hn, Hm.
  split; [done|]. split; [done|]. split; [done|]. split; [|split].
  - by apply dom_insert_lookup_L.
  - intros id' Hne. by rewrite lookup_insert_ne.
  - intros mh0 Hmh0. rewrite lookup_insert_eq. eexists. split; [done|].
    assert (mh0 = mh) as -> by congruence. apply enqueue_effect.
Qed.

(** X3: [Join], [Leave] and [SendData] on [id] never register or remove a match
    and never touch the tracker: the directory keeps its identifiers, every
    other handler is as it was, and the handler of [id] is unchanged or has
    one more message at the back of a mailbox that had room. *)
Theorem registry_calls_touch_one_mailbox (w : World) (id : UUID) (node_ : string)
    (userID sessionID : UUID) (username fromNode : string) (reply : option Reply)
    (tie : bool) (presences : list Presence) (opCode : Z) (data : list N) :
  touches_only id w (snd (Join w id node_ userID sessionID username fromNode reply tie))
  ∧ touches_only id w (Leave w id node_ presences)
  ∧ touches_only id w (SendData w id node_ userID sessionID username fromNode opCode data).
Proof.
  split; [|split].
  - unfold Join. case_bool_decide; [by apply touches_only_unchanged|].
    cbn [log matchRegistry].
    destruct (matches (matchRegistry w) !! id) as [mh|] eqn:Hmh;
      [|by apply touches_only_unchanged].
    unfold QueueCall.
    pose proof (surjective_pairing (enqueue mh (JoinAttempt userID sessionID username fromNode)))
      as Hpair.
    destruct (enqueue mh _) as [queued mh'] eqn:Hq.
    assert (mh' = snd (enqueue mh (JoinAttempt userID sessionID username fromNode)))
      as -> by (by rewrite Hq).
    destruct queued; cbn [negb]; [destruct (select _ _ _)|];
      by eapply touches_only_queued.
  - unfold Leave. case_bool_decide; [by apply touches_only_unchanged|].
    cbn [log matchRegistry].
    destruct (matches (matchRegistry w) !! id) as [mh|] eqn:Hmh;
      [|by apply touches_only_unchanged].
    unfold QueueCall. destruct (enqueue mh _) as [queued mh'] eqn:Hq.
    assert (mh' = snd (enqueue mh (Leave_msg presences))) as -> by (by rewrite Hq).
    by eapply touches_only_queued.
  - unfold SendData. case_bool_decide; [by apply touches_only_unchanged|].
    cbn [log matchRegistry].
    destruct (matches (matchRegistry w) !! id) as [mh|] eqn:Hmh;
      [|by apply touches_only_unchanged].
    unfold QueueData. by eapply touches_only_queued.
Qed.

(** X4: A match registered by [NewMatch] is found by a [Join] addressed to the
    local node, whatever the handler then answers; once [RemoveMatch] has run,
    [Join] answers (false, false) for it on every node label and the
    directory is the one before the registration without [id]; and a match
    whose handler could not be built is not registered at all. *)
Theorem registered_until_removed (w : World) (id : UUID) (mh : MatchHandler)
    (stream : PresenceStream) (node_ : string) (userID sessionID : UUID)
    (username fromNode : string) (reply : option Reply) (tie : bool) :
  let w1 := snd (NewMatch w id (Some mh)) in
  let w2 := RemoveMatch w1 id stream in
  NewMatch w id None = (None, w)
  ∧ fst (NewMatch w id (Some mh)) = Some mh
  ∧ fst (fst (Join w1 id (node (matchRegistry w)) userID sessionID username fromNode
                reply tie)) = true
  ∧ fst (Join w2 id node_ userID sessionID username fromNode reply tie) = (false, false)
  ∧ matches (matchRegistry w2) = delete id (matches (matchRegistry w)).
Proof.
  cbv zeta. split; [done|]. split; [done|]. split; [|split].
  - rewrite Join_answer. cbn [NewMatch snd log set_matches matchRegistry node matches].
    rewrite bool_decide_eq_false_2 by (intros H; by apply H).
    rewrite lookup_insert_eq.
    destruct (fst (QueueCall mh _)); [|done]. by destruct (select _ _ _).
  - rewrite Join_answer. case_bool_decide; [done|].
    unfold RemoveMatch, UntrackByStream.
    cbn [NewMatch snd log set_matches set_tracker matchRegistry node matches].
    by rewrite lookup_delete_eq.
  - unfold RemoveMatch, UntrackByStream.
    cbn [NewMatch snd log set_matches set_tracker matchRegistry node matches].
    apply delete_insert_eq.
Qed.

(** ** The handlers as a whole *)

Section WholeHandlers.

Variable FromString : string → option UUID.

(** X5: Whatever the envelope, [matchJoin] never looks a match up, never calls the
    registry and never tracks a presence: a run stops in a panic with the
    world untouched, or returns after one BadInput reply to the sender. *)
Theorem matchJoin_never_joins (w : World) (s : session) (envelope : Envelope)
    (reply : option Reply) (tie : bool) :
  matchJoin FromString w s envelope reply tie = Panicked w
  ∨ ∃ e, bad_input e = true ∧ Cid e = Cid envelope
         ∧ matchJoin FromString w s envelope reply tie = Returned (Send w s e).
Proof.
  unfold matchJoin, GetMatchJoin, GetMatchLeave.
  destruct envelope as [cid [[m|err| |mj|ml|mds|md]|]]; cbn [Message Cid]; try (by left).
  destruct mj as [[[id|token]|]]; cbn [mj_Id].
  - by left.
  - right. exists (error_envelope cid Error_BAD_INPUT "Token-based match join not available").
    by repeat split.
  - right. exists (error_envelope cid Error_BAD_INPUT "No match ID or token found").
    by repeat split.
Qed.

(** X6: Whatever the envelope, [matchDataSend] delivers nothing: it never calls
    the router nor the registry's [SendData], sends nothing to the sender and
    changes neither tracker nor registry; the most it does before it returns
    or panics is one local membership lookup. *)
Theorem matchDataSend_never_delivers (w : World) (s : session) (envelope : Envelope) :
  let w' := world_of (matchDataSend FromString w s envelope) in
  tracker w' = tracker w
  ∧ matchRegistry w' = matchRegistry w
  ∧ (new_events w w' = []
     ∨ ∃ stream, new_events w w' = [EGetLocal (s_ID s) stream (s_UserID s)])
  ∧ existsb is_delivery (new_events w w') = false
  ∧ existsb is_session_send (new_events w w') = false.
Proof.
  cbv zeta.
  assert (∀ w', tracker w' = tracker w → matchRegistry w' = matchRegistry w →
            (new_events w w' = []
             ∨ ∃ stream, new_events w w' = [EGetLocal (s_ID s) stream (s_UserID s)]) →
            tracker w' = tracker w ∧ matchRegistry w' = matchRegistry w
            ∧ (new_events w w' = []
               ∨ ∃ stream, new_events w w' = [EGetLocal (s_ID s) stream (s_UserID s)])
            ∧ existsb is_delivery (new_events w w') = false
            ∧ existsb is_session_send (new_events w w') = false) as Hgoal.
  { intros w' Ht Hr Hev. split; [done|]. split; [done|]. split; [done|].
    destruct Hev as [-> | [stream ->]]; done. }
  assert (new_events w w = []) as Hsame by (unfold new_events; by rewrite drop_all).
  unfold matchDataSend, GetMatchDataSend, GetMatchLeave.
  destruct envelope as [cid [[m|err| |mj|ml|mds|md]|]]; cbn [Message Cid world_of];
    try (apply Hgoal; [done | done | by left]).
  destruct (SplitN (ml_MatchId ml) colon 2) as [|c0 [|c1 [|c2 rest]]];
    cbn [world_of]; try (apply Hgoal; [done | done | by left]).
  destruct (FromString c0) as [matchID|]; cbn [world_of];
    [|apply Hgoal; [done | done | by left]].
  unfold matchDataSend_body, matchDataSend_authoritative.
  case_bool_decide; cbn [world_of]; [|apply Hgoal; [done | done | by left]].
  unfold GetLocalBySessionIDStreamUserID.
  destruct (tr_GetLocalBySessionIDStreamUserID _ _ _ _); cbn [world_of];
    (apply Hgoal; [done | done |]); right; eexists;
    unfold new_events, log; cbn [trace]; by rewrite drop_app_length.
Qed.

(** X7: A leave whose identifier is malformed (no separator, or an identifier part
    that [uuid.FromString] rejects) is answered with one BadInput error and
    untracks nothing. *)
Theorem matchLeave_rejects_malformed (w : World) (s : session) (cid id : string) :
  (cut colon id = None
   ∨ ∃ c0 c1, cut colon id = Some (c0, c1) ∧ FromString c0 = None) →
  matchLeave FromString w s
    {| Cid := cid; Message := Some (Envelope_MatchLeave {| ml_MatchId := id |}) |}
  = Returned (Send w s (error_envelope cid Error_BAD_INPUT "Invalid match ID")).
Proof.
  intros Hbad. unfold matchLeave, GetMatchLeave. cbn [Message ml_MatchId Cid SplitN].
  destruct Hbad as [-> | (c0 & c1 & -> & Hparse)]; [done|]. by rewrite Hparse.
Qed.

(** X8: The wire form round trip, at the one handler that reads its own message: a
    leave addressed to "<uuid>:<label>" untracks the session on the stream of
    exactly that identifier and label (relayed when the label is empty,
    authoritative otherwise; the label may itself hold colons) and
    acknowledges, whether or not the session was a member. *)
Theorem leave_acts_on_the_parsed_pair (w : World) (s : session) (cid : string)
    (u : UUID) (label : string) :
  FromString (String u) = Some u →
  ∃ w', matchLeave FromString w s
          {| Cid := cid;
             Message := Some (Envelope_MatchLeave
                                {| ml_MatchId := String u +:+ String.String colon label |}) |}
        = Returned w'
        ∧ new_events w w'
          = [EUntrack (s_ID s) (stream_of u label) (s_UserID s);
             ESessionSend (s_ID s) {| Cid := cid; Message := None |}]
        ∧ tracker w' = tr_Untrack (tracker w) (s_ID s) (stream_of u label) (s_UserID s)
        ∧ matchRegistry w' = matchRegistry w.
Proof.
  intros Hparse. eexists. split; [by apply matchLeave_parses_its_own_identifier|].
  split; [|done].
  unfold new_events, matchLeave_body, Send, Untrack, log, set_tracker. cbn [trace Cid].
  rewrite <- app_assoc. by rewrite drop_app_length.
Qed.

(** X9: Leaving the match that [matchCreate] has just answered with: the wire
    identifier of the reply leads [matchLeave] to untrack the creator on the
    very stream that [matchCreate] tracked it on, and to acknowledge. *)
Theorem leave_after_create (w : World) (s : session) (envelope : Envelope)
    (matchID : UUID) (cid : string) :
  FromString (String matchID) = Some matchID →
  let created := matchCreate w s envelope matchID in
  let wire := String matchID +:+ ":" in
  let leave := {| Cid := cid;
                  Message := Some (Envelope_MatchLeave {| ml_MatchId := wire |}) |} in
  new_events w created
  = [ETrack (s_ID s) (relayed_stream matchID) (s_UserID s) (session_meta s);
     ESessionSend (s_ID s)
       (match_envelope (Cid envelope) wire
          [self_presence s (s_Username s)] (self_presence s (s_Username s)))]
  ∧ ∃ w2, matchLeave FromString created s leave = Returned w2
          ∧ new_events created w2
            = [EUntrack (s_ID s) (relayed_stream matchID) (s_UserID s);
               ESessionSend (s_ID s) {| Cid := cid; Message := None |}]
          ∧ matchRegistry w2 = matchRegistry w.
Proof.
  intros Hparse. cbv zeta. split.
  - unfold new_events, matchCreate, Send, Track, log, set_tracker. cbn [trace].
    rewrite <- app_assoc. by rewrite drop_app_length.
  - eexists. split.
    + change (":"%string) with (String.String colon "").
      by apply matchLeave_parses_its_own_identifier.
    + split; [|done].
      unfold new_events, matchLeave_body, Send, Untrack, log, set_tracker. cbn [trace].
      rewrite bool_decide_eq_false_2 by (intros H; by apply H).
      rewrite <- app_assoc. by rewrite drop_app_length.
Qed.

End WholeHandlers.

Lemma matchLeave_rejects_malformed_witness :
  matchLeave canonical_FromString sample_world alice (leave_envelope "not-a-uuid:node1")
  = Returned (Send sample_world alice
                (error_envelope "1" Error_BAD_INPUT "Invalid match ID")).
Proof.
  apply (matchLeave_rejects_malformed canonical_FromString sample_world alice "1"
           "not-a-uuid:node1").
  right. exists "not-a-uuid"%string, "node1"%string. split; reflexivity.
Defined.

Lemma leave_after_create_witness :
  ∃ w2, matchLeave canonical_FromString
          (matchCreate sample_world dave {| Cid := "3"; Message := Some Envelope_MatchCreate |} 5)
          dave (leave_envelope (String 5 +:+ ":")) = Returned w2
        ∧ new_events
            (matchCreate sample_world dave {| Cid := "3"; Message := Some Envelope_MatchCreate |} 5)
            w2
          = [EUntrack 4 (relayed_stream 5) 14;
             ESessionSend 4 {| Cid := "1"; Message := None |}]
        ∧ matchRegistry w2 = matchRegistry sample_world.
Proof.
  destruct (leave_after_create canonical_FromString sample_world dave
              {| Cid := "3"; Message := Some Envelope_MatchCreate |} 5 "1")
    as [_ Hleave].
  - reflexivity.
  - exact Hleave.
Defined.

Lemma leave_acts_on_the_parsed_pair_witness :
  ∃ w', matchLeave canonical_FromString sample_world alice
          (leave_envelope (String 7 +:+ String.String colon "node1")) = Returned w'
        ∧ new_events sample_world w'
          = [EUntrack 1 (stream_of 7 "node1") 11;
             ESessionSend 1 {| Cid := "1"; Message := None |}]
        ∧ tracker w' = tr_Untrack (tracker sample_world) 1 (stream_of 7 "node1") 11
        ∧ matchRegistry w' = matchRegistry sample_world.
Proof.
  apply (leave_acts_on_the_parsed_pair canonical_FromString sample_world alice "1"
           7 "node1").
  reflexivity.
Defined.

(** ** The relayed scan on any membership list *)

Lemma named_swap_remove_mono fs j f q :
  fs !! j = Some f → named (swap_remove fs j) q = true → named fs q = true.
Proof.
  unfold named. intros Hj.
  destruct (swap_remove_split fs j f Hj) as (rest & -> & Hperm).
  rewrite <- (take_drop_middle fs j f Hj) at 2.
  rewrite !existsb_app. cbn [existsb].
  rewrite (existsb_Permutation _ _ _ Hperm).
  intros [-> | ->]%orb_prop; [done|]. by rewrite !orb_true_r.
Qed.

(** The scan from index [i] without any assumption on the list: the first [i]
    entries stay in place, what follows them is drawn from the entries
    scanned, the sender's entry is never counted among the survivors, and
    with filters every survivor is named by a filter and is not the sender. *)
Lemma relay_loop_general s n :
  ∀ ps filters senderFound i,
    length ps - i ≤ n →
    ∃ kept,
      relay_loop s ps filters senderFound i
      = (take i ps ++ kept, senderFound || existsb (is_sender s) (drop i ps))
      ∧ kept ⊆+ drop i ps
      ∧ length kept + (if existsb (is_sender s) (drop i ps) then 1 else 0)
        ≤ length (drop i ps)
      ∧ (∀ fs, filters = Some fs →
           Forall (λ p, is_sender s p = false ∧ named fs p = true) kept
           ∧ length kept ≤ length fs).
Proof.
  induction n as [|n IH]; intros ps filters found i Hn.
  - exists []. rewrite relay_loop_done by (apply lookup_ge_None_2; lia).
    rewrite drop_ge, take_ge by lia. cbn [existsb length].
    rewrite orb_false_r, app_nil_r. split; [done|]. split; [done|].
    split; [lia|]. intros fs _. split; [constructor | cbn; lia].
  - destruct (ps !! i) as [p|] eqn:Hi.
    2:{ apply lookup_ge_None_1 in Hi. exists [].
        rewrite relay_loop_done by (by apply lookup_ge_None_2).
        rewrite drop_ge, take_ge by lia. cbn [existsb length].
        rewrite orb_false_r, app_nil_r. split; [done|]. split; [done|].
        split; [lia|]. intros fs _. split; [constructor | cbn; lia]. }
    pose proof (lookup_lt_Some _ _ _ Hi) as Hlt.
    rewrite (drop_S _ _ _ Hi).
    destruct (swap_remove_split ps i p Hi) as (rest & Hsr & Hperm).
    assert (length (take i ps) = i) as Hlen by (rewrite length_take; lia).
    assert (length (swap_remove ps i) - i ≤ n) as Hn'.
    { rewrite swap_remove_length by (intros ->; simpl in Hlt; lia). lia. }
    assert (take i (swap_remove ps i) = take i ps) as Htake
      by (rewrite Hsr; by apply take_app_length').
    assert (drop i (swap_remove ps i) = rest) as Hdrop
      by (rewrite Hsr; by apply drop_app_length').
    pose proof (Permutation_length Hperm) as Hplen.
    rewrite (relay_loop_step _ _ _ _ _ _ Hi). cbn [existsb length].
    destruct (is_sender s p) eqn:Hs; cbn [orb].
    + rewrite orb_true_r.
      destruct filters as [fs|].
      * destruct (IH (swap_remove ps i) (Some fs) true i Hn')
          as (kept & Heq & Hsub & Hcount & Hfs).
        rewrite Htake, Hdrop in *. exists kept.
        split; [by rewrite Heq|]. split; [by rewrite Hsub, Hperm; apply submseteq_cons|].
        split; [|done].
        destruct (existsb (is_sender s) rest); lia.
      * exists rest. rewrite Hsr. split; [done|].
        split; [by rewrite Hperm; apply submseteq_cons|].
        split; [lia | done].
    + destruct filters as [fs|].
      * destruct (find_filter p fs 0) as [j|] eqn:Hj.
        -- destruct (find_filter_Some _ _ _ _ Hj) as (f & Hf & Hm & Hnamed).
           rewrite Nat.sub_0_r in Hf.
           destruct (IH ps (Some (swap_remove fs j)) found (S i))
             as (kept & Heq & Hsub & Hcount & Hfs); [lia|].
           exists (p :: kept). rewrite Heq, (take_S_r _ _ _ Hi), <- app_assoc.
           split; [done|]. split; [by apply submseteq_skip|].
           split; [cbn [length]; lia|].
           intros fs' [= <-]. destruct (Hfs _ eq_refl) as [Hall Hle].
           split.
           ++ constructor; [done|]. eapply Forall_impl; [exact Hall|].
              intros q [Hq1 Hq2]. split; [done|]. by eapply (named_swap_remove_mono _ _ f).
           ++ rewrite swap_remove_length in Hle
                by (intros ->; by rewrite lookup_nil in Hf).
              apply lookup_lt_Some in Hf. cbn [length]. lia.
        -- destruct (IH (swap_remove ps i) (Some fs) found i Hn')
             as (kept & Heq & Hsub & Hcount & Hfs).
           rewrite Htake, Hdrop in *. exists kept.
           rewrite (existsb_Permutation _ _ _ Hperm) in Heq, Hcount.
           split; [done|]. split; [by rewrite Hsub, Hperm; apply submseteq_cons|].
           split; [lia | done].
      * destruct (IH ps None found (S i)) as (kept & Heq & Hsub & Hcount & Hfs); [lia|].
        exists (p :: kept). rewrite Heq, (take_S_r _ _ _ Hi), <- app_assoc.
        split; [done|]. split; [by apply submseteq_skip|].
        split; [cbn [length]; lia | done].
Qed.

(** X10: Lines 250-312 on any membership list, repeated entries included: the
    router is called at most once, and only when the sender is in the list;
    the recipients are then entries of the list, fewer than the list has; with
    filters, none of them is the sender, each is named by a filter, and there
    are no more of them than filters. *)
Theorem relayed_delivery_stays_within_membership (w : World) (s : session)
    (incoming : MatchDataSend) (filters : option (list matchDataFilter))
    (matchID : UUID) :
  let stream := relayed_stream matchID in
  let M := tr_ListByStream (tracker w) stream in
  let looked := log (EListByStream stream) w in
  matchDataSend_relay w s incoming filters matchID = looked
  ∨ ∃ ps outgoing,
      matchDataSend_relay w s incoming filters matchID
      = SendToPresences looked ps outgoing
      ∧ ps ≠ []
      ∧ existsb (is_sender s) M = true
      ∧ ps ⊆+ M
      ∧ length ps < length M
      ∧ (∀ fs, filters = Some fs →
           Forall (λ p, is_sender s p = false ∧ named fs p = true) ps
           ∧ length ps ≤ length fs).
Proof.
  cbv zeta. unfold matchDataSend_relay, ListByStream. fold (relayed_stream matchID).
  set (M := tr_ListByStream (tracker w) (relayed_stream matchID)).
  case_bool_decide as Hempty; [by left|].
  destruct (relay_loop_general s (length M) M filters false 0)
    as (ps & Heq & Hsub & Hcount & Hfs); [lia|].
  rewrite drop_0 in *. cbn [take app orb] in Heq. rewrite Heq.
  destruct (existsb (is_sender s) M) eqn:Hfound; cbn [negb]; [|by left].
  case_bool_decide as Hnone; [by left|].
  right. eexists ps, _. split; [done|].
  split; [by intros ->|]. split; [done|]. split; [done|]. split; [lia | done].
Qed.

(** ** Authoritative joins and the registry's answer *)







(** ** Parsing the filters *)

Section Filters.

Variable FromString : string → option UUID.

(** X12: The filter list is parsed all or nothing: the loop of lines 236-247 yields
    filters exactly when every entry's user and session identifiers parse,
    and then one filter per entry, in the order of the entries. *)
Theorem parse_filters_all_or_nothing (presences : list StreamPresence)
    (fs : list matchDataFilter) :
  parse_filters FromString presences = Some fs ↔ Forall2 (parses_to FromString) presences fs.
Proof.
  revert fs. induction presences as [|sp rest IH]; intros fs; cbn [parse_filters].
  - split.
    + intros [= <-]. constructor.
    + intros H. by inversion H.
  - split.
    + destruct (FromString (sp_UserId sp)) as [uid|] eqn:Hu; [|done].
      destruct (FromString (sp_SessionId sp)) as [sid|] eqn:Hs; [|done].
      destruct (parse_filters FromString rest) as [fs'|] eqn:Hrest; [|done].
      intros [= <-]. constructor; [by split | by apply IH].
    + intros H. inversion H as [|? f ? fs' [Hu Hs] Hrest]; subst.
      apply IH in Hrest. rewrite Hu, Hs, Hrest. by destruct f.
Qed.

End Filters.

(** ** Storage queries *)

Example placeholders_example :
  placeholders "a = $1 AND b = $12 OR c = $ 3 AND d = $2" = [1; 12; 2].
Proof. reflexivity. Qed.

(** X13: The write query and its parameters fit: whatever the mode, the owner and
    the version, the text handed to the database uses every parameter position
    from 1 to the number of parameters passed with it, and no other. *)
Theorem write_query_uses_its_parameters (authoritativeWrite : bool) (ownerID : UUID)
    (object : WriteStorageObject) :
  let q := storageWriteObject_query authoritativeWrite ownerID object in
  uses_exactly (fst q) (length (snd q)) = true
  ∧ 6 ≤ length (snd q) ≤ 8
  ∧ take 4 (snd q)
    = [P_string (wso_Collection object); P_string (wso_Key object);
       P_string (wso_Value object); P_string (wso_Value object)].
Proof.
  cbv zeta. unfold storageWriteObject_query, getStorageWriteQuery.
  destruct authoritativeWrite, (String.eqb (wso_Version object) ""),
    (String.eqb (wso_Version object) "*"), (Equal ownerID Nil);
    cbn [negb fst snd length app take]; (split; [vm_compute; reflexivity|]);
    (split; [lia | reflexivity]).
Qed.

(** X14: When the owner reaches the write query.  A user write always passes it.
    An authoritative write with a version to match passes it unless it is the
    nil UUID.  An authoritative write without a version to match (empty, or
    "*") passes it only when it is the nil UUID; for any other owner it passes
    no owner and addresses the row whose [user_id] is NULL. *)
Theorem owner_passed_to_write_query (authoritativeWrite : bool) (ownerID : UUID)
    (object : WriteStorageObject) :
  let q := storageWriteObject_query authoritativeWrite ownerID object in
  let v := wso_Version object in
  let passed := existsb is_owner_param (drop 6 (snd q)) in
  passed
  = (if authoritativeWrite
     then if String.eqb v "" || String.eqb v "*"
          then Equal ownerID Nil else negb (Equal ownerID Nil)
     else true)
  ∧ addresses_global (fst q) = negb passed
  ∧ (passed = true → P_uuid ownerID ∈ snd q).
Proof.
  cbv zeta. unfold storageWriteObject_query, getStorageWriteQuery.
  destruct authoritativeWrite, (String.eqb (wso_Version object) ""),
    (String.eqb (wso_Version object) "*"), (Equal ownerID Nil);
    cbn [negb fst snd length app drop existsb is_owner_param orb];
    (split; [reflexivity|]); (split; [vm_compute; reflexivity|]);
    intros Hp; try discriminate Hp;
    repeat (first [apply list_elem_of_here | apply list_elem_of_further]).
Qed.

(** X15: The delete query and its parameters fit: the text uses the parameter
    positions 1, 2, ... up to the number of parameters, each once and in
    order; the owner is a parameter exactly for a delete that is not
    authoritative, and the version exactly when one is given. *)
Theorem delete_query_uses_its_parameters (authoritativeDelete : bool) (ownerID : UUID)
    (objectID : DeleteStorageObjectId) :
  let q := delete_query authoritativeDelete ownerID objectID in
  placeholders (fst q) = seq 1 (length (snd q))
  ∧ snd q
    = [P_string (dso_Collection objectID); P_string (dso_Key objectID)]
      ++ (if authoritativeDelete then [] else [P_uuid ownerID])
      ++ (if String.eqb (dso_Version objectID) "" then []
          else [P_string (dso_Version objectID)]).
Proof.
  cbv zeta. unfold delete_query.
  destruct authoritativeDelete, (String.eqb (dso_Version objectID) "");
    cbn [negb fst snd app length]; split; reflexivity.
Qed.

(** ** The queries of the listings and of a read *)

Lemma list_ascii_of_string_app (s1 s2 : string) :
  list_ascii_of_string (s1 +:+ s2) = list_ascii_of_string s1 ++ list_ascii_of_string s2.
Proof.
  induction s1 as [|c s1 IH]; [reflexivity|].
  change (c :: list_ascii_of_string (s1 +:+ s2)
          = c :: (list_ascii_of_string s1 ++ list_ascii_of_string s2)).
  by rewrite IH.
Qed.

Lemma scan_number (u : Decimal.uint) : ∀ (acc : nat) (rest : list ascii),
  scan (Number acc) (list_ascii_of_string (NilEmpty.string_of_uint u) ++ rest)
  = scan (Number (Nat.of_uint_acc u acc)) rest.
Proof.
  induction u as [|u IH|u IH|u IH|u IH|u IH|u IH|u IH|u IH|u IH|u IH]; intros acc rest;
    [reflexivity|..];
    cbn [NilEmpty.string_of_uint list_ascii_of_string app Nat.of_uint_acc];
    rewrite Nat.tail_mul_spec;
    (etransitivity; [|apply IH]); cbn [scan]; 
    match goal with |- context [digit_of ?c] =>
      let d := eval vm_compute in (digit_of c) in change (digit_of c) with d end;
    cbv iota; do 2 f_equal; lia.
Qed.

Lemma scan_Sprint (k : nat) (rest : list ascii) :
  scan Dollar (list_ascii_of_string (Sprint k) ++ rest) = scan (Number k) rest.
Proof.
  unfold Sprint.
  pose proof (DecimalNat.Unsigned.of_to k) as Hk.
  destruct (Nat.to_uint k) as [|u|u|u|u|u|u|u|u|u|u];
    cbn [NilZero.string_of_uint NilEmpty.string_of_uint list_ascii_of_string app scan];
    match goal with |- context [digit_of ?c] =>
      let d := eval vm_compute in (digit_of c) in change (digit_of c) with d end;
    cbv iota; rewrite ?scan_number; do 2 f_equal; rewrite <- Hk; reflexivity.
Qed.

Lemma scan_open (rest : list ascii) :
  scan Idle (list_ascii_of_string " (collection = $" ++ rest) = scan Dollar rest.
Proof. reflexivity. Qed.

Lemma scan_key (n : nat) (rest : list ascii) :
  scan (Number n) (list_ascii_of_string " AND key = $" ++ rest) = n :: scan Dollar rest.
Proof. reflexivity. Qed.

Lemma scan_user (n : nat) (rest : list ascii) :
  scan (Number n) (list_ascii_of_string " AND user_id = $" ++ rest) = n :: scan Dollar rest.
Proof. reflexivity. Qed.

Lemma scan_null (n : nat) (rest : list ascii) :
  scan (Number n) (list_ascii_of_string " AND user_id = NULL AND read = 2) " ++ rest)
  = n :: scan Idle rest.
Proof. reflexivity. Qed.

Lemma scan_close (n : nat) (rest : list ascii) :
  scan (Number n) (list_ascii_of_string ") " ++ rest) = n :: scan Idle rest.
Proof. reflexivity. Qed.

Lemma scan_permission (n : nat) (rest : list ascii) :
  scan (Number n)
    (list_ascii_of_string " AND (read = 2 OR (read = 1 AND user_id = $" ++ rest)
  = n :: scan Dollar rest.
Proof. reflexivity. Qed.

Lemma scan_close3 (n : nat) (rest : list ascii) :
  scan (Number n) (list_ascii_of_string "))) " ++ rest) = n :: scan Idle rest.
Proof. reflexivity. Qed.

Lemma scan_or (rest : list ascii) :
  scan Idle (list_ascii_of_string " OR " ++ rest) = scan Idle rest.
Proof. reflexivity. Qed.

Lemma foldl_invariant {A B : Type} (P : A → list B → Prop) (f : A → B → A) (a0 : A) :
  P a0 [] → (∀ a x done, P a done → P (f a x) (done ++ [x])) →
  ∀ l, P (foldl f a0 l) l.
Proof.
  intros H0 Hstep l. induction l as [|x l IH] using rev_ind; [exact H0|].
  rewrite foldl_app. cbn [foldl]. by apply Hstep.
Qed.

Lemma read_clause_scan (userID : UUID) (id : ReadStorageObjectId) (w : string)
    (ps : list Param) :
  (∀ rest, scan Idle (list_ascii_of_string w ++ rest)
           = seq 1 (length ps) ++ scan Idle rest) →
  ∀ rest, scan Idle (list_ascii_of_string (fst (read_clause userID (w, ps) id)) ++ rest)
          = seq 1 (length (snd (read_clause userID (w, ps) id))) ++ scan Idle rest.
Proof.
  intros Hw rest.
  assert (Hor : ∀ rest,
    scan Idle (list_ascii_of_string
                 (if negb (String.eqb w "") then (w +:+ " OR ")%string else w) ++ rest)
    = seq 1 (length ps) ++ scan Idle rest).
  { intros r. destruct (negb (String.eqb w "")); [|apply Hw].
    rewrite list_ascii_of_string_app, <- app_assoc, Hw. by rewrite scan_or. }
  unfold read_clause.
  destruct (String.eqb (rso_UserId id) ""); [|destruct (Equal userID Nil)];
    cbn [fst snd]; rewrite !list_ascii_of_string_app, <- !app_assoc, Hor;
    rewrite length_app, seq_app, <- app_assoc; f_equal;
    rewrite scan_open, scan_Sprint, scan_key, scan_Sprint.
  - rewrite scan_null. cbn [length seq app]. repeat (apply (f_equal2 cons); [lia|]). reflexivity.
  - rewrite scan_user, scan_Sprint, scan_close. cbn [length seq app].
    repeat (apply (f_equal2 cons); [lia|]). reflexivity.
  - rewrite scan_user, scan_Sprint, scan_permission, scan_Sprint, scan_close3.
    cbn [length seq app]. repeat (apply (f_equal2 cons); [lia|]). reflexivity.
Qed.

(** X16: What [StorageReadObjects] hands to the database, for any list of object
    identifiers: the text uses the parameter positions 1, 2, ... up to the
    number of parameters, each once and in order; every identifier contributes
    between two and four parameters; and a call with the nil user id, which
    disregards permissions, passes no UUID at all. *)
Theorem read_query_uses_its_parameters (userID : UUID)
    (objectIDs : list ReadStorageObjectId) :
  let q := StorageReadObjects_query userID objectIDs in
  placeholders (fst q) = seq 1 (length (snd q))
  ∧ 2 * length objectIDs ≤ length (snd q) ≤ 4 * length objectIDs
  ∧ (userID = Nil → Forall (λ p, is_owner_param p = false) (snd q)).
Proof.
  cbv zeta. unfold StorageReadObjects_query.
  pose proof (foldl_invariant
    (λ (acc : string * list Param) (done : list ReadStorageObjectId),
       (∀ rest, scan Idle (list_ascii_of_string (fst acc) ++ rest)
                = seq 1 (length (snd acc)) ++ scan Idle rest)
       ∧ 2 * length done ≤ length (snd acc) ≤ 4 * length done
       ∧ (userID = Nil → Forall (λ p, is_owner_param p = false) (snd acc)))
    (read_clause userID) (""%string, [])) as Hinv.
  destruct (Hinv) with (l := objectIDs) as (Hscan & Hlen & Hnil).
  - repeat split; [cbn; lia | cbn; lia | intros _; constructor].
  - intros [w ps] id done (Hs & Hl & Hn). cbn [fst snd] in Hs, Hl, Hn.
    split; [by apply read_clause_scan|].
    rewrite length_app. cbn [length]. unfold read_clause.
    destruct (String.eqb (rso_UserId id) ""); [|destruct (Equal userID Nil) eqn:He];
      cbn [snd]; rewrite length_app; cbn [length];
      (split; [lia|]); intros ->; try discriminate He;
      apply Forall_app; (split; [by apply Hn|]); by repeat constructor.
  - destruct (foldl (read_clause userID) (""%string, []) objectIDs) as [w ps].
    cbn [fst snd] in *. split; [|by split].
    unfold placeholders. rewrite list_ascii_of_string_app.
    specialize (Hscan []). rewrite app_nil_r in Hscan.
    etransitivity; [|etransitivity; [exact Hscan|]].
    + reflexivity.
    + cbn [scan]. by rewrite app_nil_r.
Qed.

(** X17: The three listing queries and their parameters fit, with and without a
    cursor: each text uses every parameter position and none beyond, and read
    from left to right the values that are substituted are the collection, the
    user (where the listing has one), the cursor's tuple (the collection again,
    the cursor's read permission for the listing of a user's own objects, its
    key and its user id) and, for LIMIT, the limit. *)
Theorem listing_queries_bind_their_parameters (userID : UUID) (collection : string)
    (limit : Z) (sc : option storageCursor) :
  let public := StorageListObjectsPublicRead_query collection limit sc in
  let public_user := StorageListObjectsPublicReadUser_query userID collection limit sc in
  let own := StorageListObjectsUser_query userID collection limit sc in
  (uses_exactly (fst public) (length (snd public)) = true
   ∧ uses_exactly (fst public_user) (length (snd public_user)) = true
   ∧ uses_exactly (fst own) (length (snd own)) = true)
  ∧ substituted public
    = [P_string collection]
      ++ match sc with
         | Some c => [P_string collection; P_string (sc_Key c); P_bytes (sc_UserID c)]
         | None => []
         end
      ++ [P_int limit]
  ∧ substituted public_user
    = [P_string collection; P_uuid userID]
      ++ match sc with
         | Some c => [P_string collection; P_string (sc_Key c); P_bytes (sc_UserID c)]
         | None => []
         end
      ++ [P_int limit]
  ∧ substituted own
    = [P_string collection; P_uuid userID]
      ++ match sc with
         | Some c => [P_string collection; P_int32 (sc_Read c); P_string (sc_Key c);
                      P_bytes (sc_UserID c)]
         | None => []
         end
      ++ [P_int limit].
Proof.
  cbv zeta. destruct sc as [c|]; repeat split; vm_compute; reflexivity.
Qed.

(** ** Listing through the API *)

(** X18: Whatever listing [ListStorageObjects] asks for, its limit lies between 1
    and 100 and is 1 when the request names none; its cursor is the request's,
    decoded exactly when it is not empty; and the listing that is not
    restricted to public objects is asked for the caller only, when the
    request's user id parses to the caller's own. *)
Theorem listing_is_bounded_and_private_to_the_caller
    (FromString : string → option UUID)
    (DecodeString : string → option (list Byte.byte))
    (Decode : list Byte.byte → option storageCursor)
    (userID : UUID) (in_ : ListStorageObjectsRequest) (l : Listing) :
  ListStorageObjects_listing FromString DecodeString Decode userID in_ = inr l →
  (1 ≤ listing_limit l ≤ 100)%Z
  ∧ (lr_Limit in_ = None → listing_limit l = 1%Z)
  ∧ fst (listing_cursor l) = lr_Cursor in_
  ∧ (snd (listing_cursor l) = None ↔ lr_Cursor in_ = ""%string)
  ∧ (∀ user collection limit cursor sc,
       l = StorageObjectsListUser user collection limit cursor sc →
       user = userID ∧ FromString (lr_UserId in_) = Some userID).
Proof.
  unfold ListStorageObjects_listing. intros H.
  assert (Hlimit : ∃ n, (1 ≤ n ≤ 100)%Z ∧ (lr_Limit in_ = None → n = 1%Z)
    ∧ match lr_Limit in_ with
      | Some v =>
          if (v <? 1)%Z || (v >? 100)%Z then
            inl {| st_Code := InvalidArgument;
                   st_Message := "Invalid limit - limit must be between 1 and 100." |}
          else inr v
      | None => inr 1%Z
      end = inr n).
  { destruct (lr_Limit in_) as [v|].
    - destruct ((v <? 1)%Z || (v >? 100)%Z) eqn:Hv; [discriminate H|].
      exists v. split; [lia|]. by split.
    - exists 1%Z. split; [lia|]. by split. }
  destruct Hlimit as (n & Hn & Hnone & Heq). rewrite Heq in H. clear Heq.
  assert (Hcur : ∃ sc, (sc = None ↔ lr_Cursor in_ = ""%string)
    ∧ (if negb (String.eqb (lr_Cursor in_) "") then
         match DecodeString (lr_Cursor in_) with
         | None => inl {| st_Code := InvalidArgument;
                          st_Message := "Malformed cursor was used." |}
         | Some cb =>
             match Decode cb with
             | None => inl {| st_Code := InvalidArgument;
                              st_Message := "Malformed cursor was used." |}
             | Some sc => inr (Some sc)
             end
         end
       else inr None) = inr sc).
  { destruct (String.eqb_spec (lr_Cursor in_) "") as [He|Hne]; cbn [negb] in *.
    - by exists None.
    - destruct (DecodeString (lr_Cursor in_)) as [cb|]; [|discriminate H].
      destruct (Decode cb) as [sc|]; [|discriminate H].
      exists (Some sc). split; [|done]. split; [discriminate|done]. }
  destruct Hcur as (sc & Hsc & Heq). cbv zeta in H. rewrite Heq in H. clear Heq.
  destruct (negb (String.eqb (lr_UserId in_) "")).
  - destruct (FromString (lr_UserId in_)) as [uid|] eqn:Hu; [|discriminate H].
    destruct (Equal userID uid) eqn:He; injection H as <-;
      cbn [listing_limit listing_cursor fst snd];
      (split; [exact Hn|]); (split; [exact Hnone|]); (split; [reflexivity|]);
      (split; [exact Hsc|]).
    + intros user collection limit cursor sc' [= <- _ _ _ _].
      apply N.eqb_eq in He. by subst uid.
    + intros; discriminate.
  - injection H as <-. cbn [listing_limit listing_cursor fst snd].
    split; [exact Hn|]. split; [exact Hnone|]. split; [reflexivity|].
    split; [exact Hsc|]. intros; discriminate.
Qed.

Lemma listing_is_bounded_and_private_to_the_caller_witness :
  (1 ≤ 20 ≤ 100)%Z
  ∧ (Some 20%Z = None → 20%Z = 1%Z)
  ∧ ""%string = ""%string
  ∧ (@None storageCursor = None ↔ ""%string = ""%string)
  ∧ (∀ user collection limit cursor sc,
       StorageObjectsListUser 7 "saves" 20 "" None
       = StorageObjectsListUser user collection limit cursor sc →
       user = 7%N ∧ canonical_FromString (String 7) = Some 7%N).
Proof.
  apply (listing_is_bounded_and_private_to_the_caller canonical_FromString
           (λ _, None) (λ _, None) 7
           {| lr_UserId := String 7; lr_Collection := "saves";
              lr_Limit := Some 20%Z; lr_Cursor := "" |}
           (StorageObjectsListUser 7 "saves" 20 "" None)).
  vm_compute. reflexivity.
Defined.
